(** * Sinter, [src/binaires/memory.c]: the Node.js memory reporter

    A shallow embedding of the four functions of [memory.c]
    ([get_node_pid], [get_memory_usage], [display_memory], [main]) and of
    the C library calls they rely on, followed by the properties of the
    program.

    Conventions of the embedding.
    - A byte string is a [list ascii]; a C string (a path, the [d_name] of
      a directory entry, a token stored by [sscanf]) is a byte string
      without the NUL byte, and a buffer filled by [fgets] is read as a C
      string through [cstr] (everything before its first NUL).
    - [int] and [long] are [Z] with their ranges written out
      ([in_int], [in_long]).
    - The operating system is a [world]: what [opendir]/[readdir] list and
      what [fopen] yields for a path.  A [FILE*] is the part of the file
      that has not been read yet.
    - A call whose behaviour ISO C leaves undefined (a token that does not
      fit [key[64]], a number that does not fit the converted type, a read
      of [entry->d_name] after [closedir] has released the directory
      stream that holds it) yields [Undefined]; every other run yields
      [Ok].
    - Standard output is the byte string a function returns; [main]
      returns it with the exit status.
    - [x / 1024.0] and [%.2f] are exact rational arithmetic: the quotient
      of a double by a power of two, and the correctly rounded decimal. *)

From Stdlib Require Import ZArith QArith Qabs Ascii String DecimalString.
From Stdlib Require Import DecimalPos DecimalZ Bool Lia List.
From Equations Require Import Equations.
From Equations.Prop Require Import Logic.
Import ListNotations.
Open Scope Z_scope.

Module Memory.

(* ===================================================================== *)
(** ** Bytes, C strings and the outcome of a run *)
(* ===================================================================== *)

Definition bytes := list ascii.

(** A string literal of the source, as bytes. *)
Definition lit (s : string) : bytes := list_ascii_of_string s.

Definition NUL : ascii := "000"%char.
Definition NL : ascii := "010"%char.

Definition code (c : ascii) : Z := Z.of_N (N_of_ascii c).

(** [isspace] of the C locale: space, and \t \n \v \f \r. *)
Definition isspace (c : ascii) : bool :=
  (code c =? 32) || ((9 <=? code c) && (code c <=? 13)).

Definition isdigit (c : ascii) : bool :=
  (48 <=? code c) && (code c <=? 57).

Definition digit_val (c : ascii) : Z := code c - 48.

(** The C string held by a buffer: the bytes before the first NUL. *)
Fixpoint cstr (b : bytes) : bytes :=
  match b with
  | [] => []
  | c :: b' => if Ascii.eqb c NUL then [] else c :: cstr b'
  end.

Inductive res (A : Type) : Type :=
| Ok (a : A)
| Undefined.
Arguments Ok {A} a.
Arguments Undefined {A}.

Definition bind {A B} (m : res A) (k : A -> res B) : res B :=
  match m with
  | Ok a => k a
  | Undefined => Undefined
  end.

Definition INT_MAX : Z := 2147483647.
Definition INT_MIN : Z := -2147483648.
Definition LONG_MAX : Z := 9223372036854775807.
Definition LONG_MIN : Z := -9223372036854775808.

Definition in_int (v : Z) : bool := (INT_MIN <=? v) && (v <=? INT_MAX).
Definition in_long (v : Z) : bool := (LONG_MIN <=? v) && (v <=? LONG_MAX).

(* ===================================================================== *)
(** ** <string.h>: strlen, strspn, strcmp, strstr *)
(* ===================================================================== *)

Definition strlen (s : bytes) : nat := length s.

Definition mem_byte (c : ascii) (set : bytes) : bool :=
  existsb (Ascii.eqb c) set.

(** Length of the longest prefix of [s] made of bytes of [accept]. *)
Fixpoint strspn (s accept : bytes) : nat :=
  match s with
  | [] => O
  | c :: s' => if mem_byte c accept then S (strspn s' accept) else O
  end.

(** Zero exactly on equal strings; otherwise the difference of the first
    two bytes that differ (the end of a string counting as 0). *)
Fixpoint strcmp (a b : bytes) : Z :=
  match a, b with
  | [], [] => 0
  | [], c :: _ => - code c
  | c :: _, [] => code c
  | c :: a', d :: b' => if Ascii.eqb c d then strcmp a' b' else code c - code d
  end.

Fixpoint is_prefix (p s : bytes) : bool :=
  match p, s with
  | [], _ => true
  | _ :: _, [] => false
  | c :: p', d :: s' => Ascii.eqb c d && is_prefix p' s'
  end.

(** The tail of [hay] that starts at the first occurrence of [needle]
    ([None] is the NULL pointer). *)
Fixpoint strstr (hay needle : bytes) : option bytes :=
  if is_prefix needle hay then Some hay
  else match hay with
       | [] => None
       | _ :: hay' => strstr hay' needle
       end.

(* ===================================================================== *)
(** ** Reading numbers: the subject sequence of strtol in base 10 *)
(* ===================================================================== *)

Fixpoint skip_space (s : bytes) : bytes :=
  match s with
  | [] => []
  | c :: s' => if isspace c then skip_space s' else s
  end.

(** The longest run of non-space bytes at the head of [s], and the rest. *)
Fixpoint span_token (s : bytes) : bytes * bytes :=
  match s with
  | [] => ([], [])
  | c :: s' =>
      if isspace c then ([], s)
      else let (t, r) := span_token s' in (c :: t, r)
  end.

Fixpoint span_digits (s : bytes) : bytes * bytes :=
  match s with
  | [] => ([], [])
  | c :: s' =>
      if isdigit c then let (t, r) := span_digits s' in (c :: t, r)
      else ([], s)
  end.

Definition digits_value (ds : bytes) : Z :=
  fold_left (fun acc c => 10 * acc + digit_val c) ds 0.

(** An optional sign and at least one decimal digit: the mathematical value
    and the unread rest; [None] when there is no digit. *)
Definition scan_decimal (s : bytes) : option (Z * bytes) :=
  let '(neg, s1) :=
    match s with
    | c :: t =>
        if Ascii.eqb c "-" then (true, t)
        else if Ascii.eqb c "+" then (false, t)
        else (false, s)
    | [] => (false, s)
    end in
  let (ds, rest) := span_digits s1 in
  match ds with
  | [] => None
  | _ :: _ => Some (if neg then - digits_value ds else digits_value ds, rest)
  end.

(** [atoi]: leading white space, the decimal subject sequence, 0 when there
    is none; undefined when the value does not fit an [int]. *)
Definition atoi (s : bytes) : res Z :=
  match scan_decimal (skip_space s) with
  | None => Ok 0
  | Some (v, _) => if in_int v then Ok v else Undefined
  end.

(* ===================================================================== *)
(** ** <stdio.h>: snprintf, files, fgets, sscanf *)
(* ===================================================================== *)

(** [snprintf (buf, size, ...)] keeps at most [size - 1] bytes. *)
Definition snprintf (size : nat) (text : bytes) : bytes :=
  firstn (size - 1) text.

(** The conversions [%d] and [%ld]. *)
Definition fmt_d (v : Z) : bytes := lit (NilZero.string_of_int (Z.to_int v)).

(** The conversion of a [long] to [double]: exact below 2^53, otherwise
    rounded to 53 significant bits, to nearest with ties to even.  The
    result is always an integer. *)
Definition double_of_long (x : Z) : Z :=
  let a := Z.abs x in
  if a <? 2 ^ 53 then x
  else
    let e := Z.log2 a - 52 in
    let q := Z.shiftr a e in
    let r := a - Z.shiftl q e in
    let half := Z.shiftl 1 (e - 1) in
    let q' := if (half <? r) || ((r =? half) && Z.odd q) then q + 1 else q in
    Z.sgn x * Z.shiftl q' e.

(** [x / 1024.0]: the long is converted, and dividing a double by a power
    of two is exact. *)
Definition div_1024 (x : Z) : Q := double_of_long x # 1024.

(** The hundredths nearest to the absolute value of [q], ties to even. *)
Definition round_hundredths (q : Q) : Z :=
  let n := Z.abs (Qnum q) * 100 in
  let d := Z.pos (Qden q) in
  let k := n / d in
  let r := n mod d in
  if 2 * r <? d then k
  else if d <? 2 * r then k + 1
  else if Z.even k then k else k + 1.

Definition digit_char (d : Z) : ascii := ascii_of_N (Z.to_N (48 + d)).

(** The conversion [%.2f]. *)
Definition fmt_2f (q : Q) : bytes :=
  let h := round_hundredths q in
  (if Qnum q <? 0 then lit "-" else [])
  ++ fmt_d (h / 100) ++ lit "."
  ++ [digit_char (h / 10 mod 10); digit_char (h mod 10)].

(** A file as a reader meets it: its bytes, and whether the read that
    follows the last byte fails (an I/O error) or reports end of file. *)
Record file : Type := mkfile { f_data : bytes; f_ioerr : bool }.

(** Up to [n] bytes, stopping after a newline: the bytes taken, the rest,
    and whether the end of the data was hit. *)
Fixpoint read_line (n : nat) (s : bytes) : bytes * bytes * bool :=
  match n with
  | O => ([], s, false)
  | S n' =>
      match s with
      | [] => ([], [], true)
      | c :: s' =>
          if Ascii.eqb c NL then ([c], s', false)
          else let '(l, r, e) := read_line n' s' in (c :: l, r, e)
      end
  end.

(** [fgets (buf, size, f)]: the bytes stored in [buf] and the stream after
    the call, or [None] for NULL (an error, or end of file before any
    byte). *)
Definition fgets (size : nat) (f : file) : option (bytes * file) :=
  let '(buf, rest, at_end) := read_line (size - 1) (f_data f) in
  if at_end && (f_ioerr f || (length buf =? 0)%nat) then None
  else Some (buf, mkfile rest (f_ioerr f)).

(** The directives of a scanf format. *)
Inductive directive : Type :=
| Dspace              (* white space: skips any white space *)
| Dchar (c : ascii)   (* an ordinary byte: must match *)
| Dstr                (* %s *)
| Dlong.              (* %ld *)

Fixpoint parse_format (f : bytes) : list directive :=
  match f with
  | [] => []
  | c :: f' =>
      if isspace c then Dspace :: parse_format f'
      else if Ascii.eqb c "%" then
        match f' with
        | d :: f'' =>
            if Ascii.eqb d "s" then Dstr :: parse_format f''
            else if Ascii.eqb d "l" then
              match f'' with
              | e :: f3 =>
                  if Ascii.eqb e "d" then Dlong :: parse_format f3
                  else Dchar c :: parse_format f'
              | [] => Dchar c :: parse_format f'
              end
            else Dchar c :: parse_format f'
        | [] => [Dchar c]
        end
      else Dchar c :: parse_format f'
  end.

(** What a call of sscanf has done so far: the number of items assigned,
    and the objects written through its pointer arguments ([None]: not
    written by this call). *)
Record scan_state : Type := mkscan {
  sc_count : Z;
  sc_key : option bytes;
  sc_value : option Z
}.

Definition EOF : Z := -1.

(** The value returned when the input ends before a directive is served. *)
Definition input_failure (st : scan_state) : Z * scan_state :=
  (if sc_count st =? 0 then EOF else sc_count st, st).

Definition matching_failure (st : scan_state) : Z * scan_state :=
  (sc_count st, st).

(** The directives are served in order on the input [inp]; [cap] is the
    size of the array that receives a [%s] item. *)
Fixpoint run_directives (cap : nat) (ds : list directive) (inp : bytes)
    (st : scan_state) : res (Z * scan_state) :=
  match ds with
  | [] => Ok (sc_count st, st)
  | Dspace :: ds' => run_directives cap ds' (skip_space inp) st
  | Dchar c :: ds' =>
      match inp with
      | [] => Ok (input_failure st)
      | d :: inp' =>
          if Ascii.eqb c d then run_directives cap ds' inp' st
          else Ok (matching_failure st)
      end
  | Dstr :: ds' =>
      match skip_space inp with
      | [] => Ok (input_failure st)
      | inp1 =>
          let (tok, inp2) := span_token inp1 in
          if (cap <=? length tok)%nat then Undefined
          else run_directives cap ds' inp2
                 (mkscan (sc_count st + 1) (Some tok) (sc_value st))
      end
  | Dlong :: ds' =>
      match skip_space inp with
      | [] => Ok (input_failure st)
      | inp1 =>
          match scan_decimal inp1 with
          | None => Ok (matching_failure st)
          | Some (v, inp2) =>
              if in_long v
              then run_directives cap ds' inp2
                     (mkscan (sc_count st + 1) (sc_key st) (Some v))
              else Undefined
          end
      end
  end.

(** [sscanf (buf, format, key, &value)] with [key] an array of [cap]
    bytes: the returned count and the objects written. *)
Definition sscanf (buf : bytes) (format : bytes) (cap : nat)
    : res (Z * scan_state) :=
  run_directives cap (parse_format format) (cstr buf) (mkscan 0 None None).

(* ===================================================================== *)
(** ** The operating system *)
(* ===================================================================== *)

(** [opendir] gives the names that [readdir] will return, in its order, or
    [None] when the directory cannot be opened; [fopen] gives the file
    behind a path, or [None]. *)
Record world : Type := mkworld {
  opendir : bytes -> option (list bytes);
  fopen : bytes -> option file
}.

(* ===================================================================== *)
(** ** memory.c *)
(* ===================================================================== *)

Record memory_info : Type := mkmem {
  vm_size : Z;
  vm_rss : Z;
  vm_data : Z;
  vm_stack : Z
}.

(** [memory_info mem = {0};] *)
Definition mem_zero : memory_info := mkmem 0 0 0 0.

(** [entry->d_name] is storage of the directory stream that [readdir]
    filled: it can be read while the stream is open, and no more once
    [closedir] has released the stream. *)
Definition read_d_name (stream_open : bool) (d_name : bytes) : res bytes :=
  if stream_open then Ok d_name else Undefined.

(** The body of the [while] loop of [get_node_pid] for one directory
    entry, whose name [d_name] is a C string: [Some pid] is the [return]
    inside the loop, [None] goes on to the next entry.  On a match the
    code runs [fclose (cmdline_file); closedir (proc_dir);] and only then
    [return atoi (entry->d_name);]: the name is read from the released
    stream. *)
Definition node_pid_entry (w : world) (d_name : bytes) : res (option Z) :=
  if (strspn d_name (lit "0123456789") =? strlen d_name)%nat then
    let path := snprintf 256 (lit "/proc/" ++ d_name ++ lit "/cmdline") in
    match fopen w path with
    | Some cmdline_file =>
        match fgets 1024 cmdline_file with
        | Some (cmdline, _) =>
            match strstr (cstr cmdline) (lit "node") with
            | Some _ =>
                bind (read_d_name false d_name) (fun released =>
                  bind (atoi released) (fun pid => Ok (Some pid)))
            | None => Ok None
            end
        | None => Ok None
        end
    | None => Ok None
    end
  else Ok None.

Fixpoint node_pid_loop (w : world) (entries : list bytes) : res Z :=
  match entries with
  | [] => Ok (-1)
  | entry :: rest =>
      bind (node_pid_entry w entry) (fun r =>
        match r with
        | Some pid => Ok pid
        | None => node_pid_loop w rest
        end)
  end.

Definition get_node_pid (w : world) : res Z :=
  match opendir w (lit "/proc") with
  | None => Ok (-1)
  | Some entries => node_pid_loop w entries
  end.

(** The body of the [while] loop of [get_memory_usage] for one line. *)
Definition memory_usage_line (line : bytes) (mem : memory_info)
    : res memory_info :=
  bind (sscanf line (lit "%s %ld kB") 64) (fun '(ret, st) =>
    if ret =? 2 then
      match sc_key st, sc_value st with
      | Some key, Some value =>
          if strcmp key (lit "VmSize:") =? 0
          then Ok (mkmem value (vm_rss mem) (vm_data mem) (vm_stack mem))
          else if strcmp key (lit "VmRSS:") =? 0
          then Ok (mkmem (vm_size mem) value (vm_data mem) (vm_stack mem))
          else if strcmp key (lit "VmData:") =? 0
          then Ok (mkmem (vm_size mem) (vm_rss mem) value (vm_stack mem))
          else if strcmp key (lit "VmStk:") =? 0
          then Ok (mkmem (vm_size mem) (vm_rss mem) (vm_data mem) value)
          else Ok mem
      | _, _ => Undefined   (* an object read before it is written *)
      end
    else Ok mem).

(** [while (fgets (line, sizeof (line), status_file)) { ... }] *)
Equations? memory_usage_loop (status_file : file) (mem : memory_info)
    : res memory_info by wf (length (f_data status_file)) lt :=
  memory_usage_loop status_file mem with inspect (fgets 256 status_file) := {
    | exist _ None _ => Ok mem
    | exist _ (Some (line, status_file')) Hget
        with memory_usage_line line mem := {
        | Undefined => Undefined
        | Ok mem' => memory_usage_loop status_file' mem' } }.
Proof.
  (* a successful fgets with room for a byte takes at least one *)
  assert (Hrl : forall n s buf rest e,
             read_line n s = (buf, rest, e) ->
             (length rest + length buf = length s)%nat
             /\ (e = false -> s <> [] -> n <> O -> buf <> [])).
  { induction n as [|n IH]; intros s buf rest e H; simpl in H.
    - inversion H; subst; simpl; split; [lia | congruence].
    - destruct s as [|c s'].
      + inversion H; subst; split; [reflexivity | congruence].
      + destruct (Ascii.eqb c NL).
        * inversion H; subst; simpl; split; [lia | discriminate].
        * destruct (read_line n s') as [[l r] e'] eqn:E.
          inversion H; subst. apply IH in E. simpl.
          split; [lia | discriminate]. }
  unfold fgets in Hget.
  destruct (read_line (256 - 1) (f_data status_file)) as [[b r] e] eqn:E.
  destruct (Hrl _ _ _ _ _ E) as [Hlen Hne].
  destruct e; simpl in Hget.
  - destruct (f_ioerr status_file); simpl in Hget; [discriminate|].
    destruct (Nat.eqb_spec (length b) 0); [discriminate|].
    injection Hget as _ Hf. subst status_file'. simpl. lia.
  - injection Hget as _ Hf. subst status_file'. simpl.
    destruct (f_data status_file) as [|c s'] eqn:Ed.
    + simpl in E. discriminate.
    + assert (b <> []) by (apply Hne; [reflexivity | discriminate | discriminate]).
      destruct b; [congruence | simpl in *; lia].
Qed.

Definition get_memory_usage (w : world) (pid : Z) : res memory_info :=
  let mem := mem_zero in
  let path := snprintf 256 (lit "/proc/" ++ fmt_d pid ++ lit "/status") in
  match fopen w path with
  | None => Ok mem
  | Some status_file => memory_usage_loop status_file mem
  end.

(** What [display_memory] writes to standard output. *)
Definition display_memory (mem : memory_info) : bytes :=
  lit "Memory Usage (KB):" ++ [NL]
  ++ lit "Virtual Size: " ++ fmt_d (vm_size mem) ++ [NL]
  ++ lit "Physical RSS: " ++ fmt_d (vm_rss mem) ++ [NL]
  ++ lit "Data Segment: " ++ fmt_d (vm_data mem) ++ [NL]
  ++ lit "Stack Size: " ++ fmt_d (vm_stack mem) ++ [NL]
  ++ [NL] ++ lit "Memory Usage (MB):" ++ [NL]
  ++ lit "Virtual Size: " ++ fmt_2f (div_1024 (vm_size mem)) ++ [NL]
  ++ lit "Physical RSS: " ++ fmt_2f (div_1024 (vm_rss mem)) ++ [NL].

(** [main] after [int pid = get_node_pid ();]: what it writes to standard
    output, and its exit status. *)
Definition main_from (w : world) (pid : Z) : res (bytes * Z) :=
  if pid =? -1 then
    Ok (lit "No Node.js process found" ++ [NL], 1)
  else
    let found := lit "Found Node.js process: PID " ++ fmt_d pid ++ [NL] in
    bind (get_memory_usage w pid) (fun mem =>
      if vm_size mem =? 0 then
        Ok (found ++ lit "Failed to read memory information" ++ [NL], 1)
      else
        Ok (found ++ display_memory mem, 0)).

(** What [main] writes to standard output, and its exit status. *)
Definition main (w : world) : res (bytes * Z) :=
  bind (get_node_pid w) (main_from w).

(* ===================================================================== *)
(** ** Vocabulary of the statements *)
(* ===================================================================== *)

(** The four fields of [memory_info] and the key of each. *)
Inductive field : Type := VmSize | VmRSS | VmData | VmStk.

Definition field_key (f : field) : bytes :=
  match f with
  | VmSize => lit "VmSize:"
  | VmRSS => lit "VmRSS:"
  | VmData => lit "VmData:"
  | VmStk => lit "VmStk:"
  end.

Definition get_field (f : field) (mem : memory_info) : Z :=
  match f with
  | VmSize => vm_size mem
  | VmRSS => vm_rss mem
  | VmData => vm_data mem
  | VmStk => vm_stack mem
  end.

Definition set_field (f : field) (v : Z) (mem : memory_info) : memory_info :=
  match f with
  | VmSize => mkmem v (vm_rss mem) (vm_data mem) (vm_stack mem)
  | VmRSS => mkmem (vm_size mem) v (vm_data mem) (vm_stack mem)
  | VmData => mkmem (vm_size mem) (vm_rss mem) v (vm_stack mem)
  | VmStk => mkmem (vm_size mem) (vm_rss mem) (vm_data mem) v
  end.

Definition field_eqb (f g : field) : bool :=
  match f, g with
  | VmSize, VmSize | VmRSS, VmRSS | VmData, VmData | VmStk, VmStk => true
  | _, _ => false
  end.

Definition all_space (s : bytes) : Prop := forallb isspace s = true.
Definition all_digits (s : bytes) : Prop := forallb isdigit s = true.
Definition no_space (s : bytes) : Prop :=
  forallb (fun c => negb (isspace c)) s = true.

(** [s] is empty or starts with a byte that [p] rejects. *)
Definition stops (p : ascii -> bool) (s : bytes) : Prop :=
  match s with
  | [] => True
  | c :: _ => p c = false
  end.

(** [num] is a decimal numeral of value [v]: an optional sign, then one or
    more digits. *)
Definition decimal (num : bytes) (v : Z) : Prop :=
  exists sign ds,
    num = sign ++ ds /\ ds <> [] /\ all_digits ds /\
    ((sign = [] \/ sign = lit "+") /\ v = digits_value ds
     \/ sign = lit "-" /\ v = - digits_value ds).

(** [text] reads: optional white space, the token [key], white space, a
    decimal numeral of value [v], and anything that does not continue the
    numeral. *)
Definition key_value_shape (text key : bytes) (v : Z) : Prop :=
  exists ws1 ws2 num rest,
    text = ws1 ++ key ++ ws2 ++ num ++ rest /\
    all_space ws1 /\ all_space ws2 /\ ws2 <> [] /\
    decimal num v /\ stops isdigit rest.

(** [t] occurs in [s]. *)
Definition contains (s t : bytes) : Prop :=
  exists pre post, s = pre ++ t ++ post.

Fixpoint bytes_eqb (a b : bytes) : bool :=
  match a, b with
  | [], [] => true
  | c :: a', d :: b' => Ascii.eqb c d && bytes_eqb a' b'
  | _, _ => false
  end.

(** The field a token names, if any. *)
Definition key_field (key : bytes) : option field :=
  find (fun f => bytes_eqb key (field_key f)) [VmSize; VmRSS; VmData; VmStk].

(** The assignment that a line of the status record asks for, read off the
    text of the line. *)
Definition line_assign (line : bytes) : res (option (field * Z)) :=
  match skip_space (cstr line) with
  | [] => Ok None
  | c :: s0 =>
      let (tok, s1) := span_token (c :: s0) in
      if (64 <=? length tok)%nat then Undefined
      else match scan_decimal (skip_space s1) with
           | None => Ok None
           | Some (v, _) =>
               if in_long v
               then Ok (option_map (fun f => (f, v)) (key_field tok))
               else Undefined
           end
  end.

Definition apply_assign (a : option (field * Z)) (mem : memory_info)
    : memory_info :=
  match a with
  | Some (f, v) => set_field f v mem
  | None => mem
  end.

(** The record holds the key of [f], white space, and a minus sign. *)
Definition negative_after_key (f : field) (data : bytes) : Prop :=
  exists pre ws post,
    data = pre ++ field_key f ++ ws ++ "-"%char :: post
    /\ all_space ws /\ ws <> [].

(** The same, as a test that can be run on a record. *)
Fixpoint minus_after_key (key data : bytes) : bool :=
  match data with
  | [] => false
  | _ :: data' =>
      (is_prefix key data
       && match skipn (length key) data with
          | c :: r =>
              isspace c
              && match skip_space r with
                 | d :: _ => Ascii.eqb d "-"
                 | [] => false
                 end
          | [] => false
          end)
      || minus_after_key key data'
  end.

(** A line of text as [fgets] delivers it whole: it ends with its only
    newline and fits the 256-byte buffer. *)
Definition text_line (l : bytes) : Prop :=
  exists body, l = body ++ [NL] /\ ~ In NL body /\ (length l <= 255)%nat.

(** The loop body of [get_memory_usage] applied to the lines [ls] in turn. *)
Fixpoint run_lines (ls : list bytes) (mem : memory_info) : res memory_info :=
  match ls with
  | [] => Ok mem
  | l :: ls' => bind (memory_usage_line l mem) (run_lines ls')
  end.

(** The paths the program opens. *)
Definition cmdline_path (d_name : bytes) : bytes :=
  snprintf 256 (lit "/proc/" ++ d_name ++ lit "/cmdline").

Definition status_path (pid : Z) : bytes :=
  snprintf 256 (lit "/proc/" ++ fmt_d pid ++ lit "/status").

(** What [strstr] gets to see of a command-line record read with a buffer
    of [n + 1] bytes: the bytes before the first NUL, cut after the first
    newline and after [n] bytes. *)
Fixpoint scan_window (n : nat) (data : bytes) : bytes :=
  match n, data with
  | S n', c :: data' =>
      if Ascii.eqb c NUL then []
      else if Ascii.eqb c NL then [c]
      else c :: scan_window n' data'
  | _, _ => []
  end.

(** A record that opens and gives [fgets] nothing: it is empty, or the
    read fails before a line or a full buffer is there. *)
Definition unreadable (f : file) : bool :=
  match f_data f with
  | [] => true
  | _ :: _ =>
      f_ioerr f
      && (length (f_data f) <? 1023)%nat
      && negb (existsb (Ascii.eqb NL) (f_data f))
  end.

(** The command-line text of a directory entry as the locator sees it. *)
Definition cmdline_text (w : world) (d_name : bytes) : option bytes :=
  match fopen w (cmdline_path d_name) with
  | None => None
  | Some f => if unreadable f then None else Some (scan_window 1023 (f_data f))
  end.

(** A candidate: a wholly numeric entry whose visible command-line text
    contains "node". *)
Definition entry_matches (w : world) (d_name : bytes) : Prop :=
  all_digits d_name
  /\ exists text, cmdline_text w d_name = Some text /\ contains text (lit "node").

(** A world for examples: the listing of [/proc] and a table of files. *)
Definition table_world (listing : option (list bytes))
    (files : list (bytes * file)) : world :=
  mkworld
    (fun p => if bytes_eqb p (lit "/proc") then listing else None)
    (fun p => option_map snd (find (fun kv => bytes_eqb p (fst kv)) files)).

(** A line of the source text, with its newline. *)
Definition ln (s : string) : bytes := lit s ++ [NL].

(** A process table with one numeric entry, whose command line is
    "python3" NUL "nodes.py" NUL. *)
Definition python_cmdline : file :=
  mkfile (lit "python3" ++ NUL :: lit "nodes.py" ++ [NUL]) false.

Definition python_world : world :=
  table_world (Some [lit "42"]) [(cmdline_path (lit "42"), python_cmdline)].


(** The process table of the end-to-end scenario of the specification. *)
Definition node_world : world :=
  table_world (Some [lit "self"; lit "1"; lit "42"; lit "77"])
    [(cmdline_path (lit "1"), mkfile (lit "/sbin/init" ++ [NUL]) false);
     (cmdline_path (lit "42"),
      mkfile (lit "/usr/bin/node" ++ NUL :: lit "server.js" ++ [NUL]) false);
     (cmdline_path (lit "77"), mkfile (lit "node" ++ [NUL]) false);
     (status_path 42,
      mkfile (ln "Name:   node" ++ ln "VmSize:    50000 kB"
              ++ ln "VmRSS:     20000 kB" ++ ln "VmData:    10000 kB"
              ++ ln "VmStk:       132 kB") false)].


(** A numeral as the kernel writes a process identifier: "0", or digits
    that do not start with a zero. *)
Definition canonical (name : bytes) : Prop :=
  name = lit "0" \/ exists c ds, name = c :: ds /\ c <> "0"%char.

(** [s] holds [n] or more consecutive bytes that [p] accepts. *)
Definition has_run (p : ascii -> bool) (n : nat) (s : bytes) : Prop :=
  exists pre run post,
    s = pre ++ run ++ post /\ forallb p run = true /\ (n <= length run)%nat.

(** The process table of [node_world] with other files around it: a
    command line for "self", no status record. *)
Definition node_world_other : world :=
  table_world (Some [lit "self"; lit "1"; lit "42"; lit "77"])
    [(cmdline_path (lit "self"), mkfile (lit "node" ++ [NUL]) false);
     (cmdline_path (lit "1"), mkfile (lit "/sbin/init" ++ [NUL]) false);
     (cmdline_path (lit "42"),
      mkfile (lit "/usr/bin/node" ++ NUL :: lit "server.js" ++ [NUL]) false);
     (cmdline_path (lit "77"), mkfile (lit "node" ++ [NUL]) false)].

(** The length of the longest prefix of [s] that [p] accepts, and of the
    longest run anywhere in [s]. *)
Fixpoint prefix_run (p : ascii -> bool) (s : bytes) : nat :=
  match s with
  | [] => O
  | c :: s' => if p c then S (prefix_run p s') else O
  end.

Fixpoint longest_run (p : ascii -> bool) (s : bytes) : nat :=
  match s with
  | [] => O
  | _ :: s' => Nat.max (prefix_run p s) (longest_run p s')
  end.

(** A status record as the kernel writes it (an excerpt). *)
Definition status_excerpt : bytes :=
  ln "Name:   node" ++ ln "Umask:  0022" ++ ln "State:  S (sleeping)"
  ++ ln "Pid:    42" ++ ln "Uid:    1000    1000    1000    1000"
  ++ ln "VmSize:    50000 kB" ++ ln "VmRSS:     20000 kB"
  ++ ln "CapBnd: 000001ffffffffff" ++ ln "Cpus_allowed_list:      0-15".

(** Closes [text_line] for a literal line. *)
Ltac whole_line body :=
  exists (lit body);
  split; [reflexivity | split; [simpl; intuition discriminate | simpl; lia]].

(* ===================================================================== *)
(** ** Bytes and C strings *)
(* ===================================================================== *)

Lemma code_inj c d : code c = code d -> c = d.
Proof.
  unfold code. intros H. apply N2Z.inj in H.
  rewrite <- (ascii_N_embedding c), <- (ascii_N_embedding d).
  now rewrite H.
Qed.

Lemma digit_not_space c : isdigit c = true -> isspace c = false.
Proof. unfold isdigit, isspace. lia. Qed.

Lemma digit_not_sign c :
  isdigit c = true -> Ascii.eqb c "-" = false /\ Ascii.eqb c "+" = false.
Proof.
  intros H.
  split; destruct (Ascii.eqb_spec c "-"), (Ascii.eqb_spec c "+"); subst;
    try reflexivity; vm_compute in H; discriminate.
Qed.

Lemma cstr_no_nul b : ~ In NUL (cstr b).
Proof.
  induction b as [|c b IH]; simpl; [tauto|].
  destruct (Ascii.eqb_spec c NUL) as [->|Hc]; simpl; [tauto|].
  intros [H|H]; [congruence | tauto].
Qed.

Lemma cstr_prefix b : exists post, b = cstr b ++ post.
Proof.
  induction b as [|c b [post IH]]; simpl.
  - exists []. reflexivity.
  - destruct (Ascii.eqb c NUL).
    + exists (c :: b). reflexivity.
    + exists post. simpl. now rewrite <- IH.
Qed.

Lemma strcmp_eq a b : ~ In NUL a -> ~ In NUL b -> strcmp a b = 0 <-> a = b.
Proof.
  revert b. induction a as [|c a IH]; intros [|d b] Ha Hb; simpl.
  - tauto.
  - split; [|discriminate]. intros H.
    exfalso. apply Hb. left. symmetry. apply code_inj.
    change (code NUL) with 0. lia.
  - split; [|discriminate]. intros H.
    exfalso. apply Ha. left. symmetry. apply code_inj.
    change (code NUL) with 0. lia.
  - simpl in Ha, Hb.
    destruct (Ascii.eqb_spec c d) as [->|Hcd].
    + rewrite IH by tauto. split; congruence.
    + split; [|congruence]. intros H. exfalso. apply Hcd, code_inj. lia.
Qed.

Lemma is_prefix_spec p s : is_prefix p s = true <-> exists t, s = p ++ t.
Proof.
  revert s. induction p as [|c p IH]; intros s; simpl.
  - split; [exists s; reflexivity | reflexivity].
  - destruct s as [|d s]; [split; [discriminate | intros [t H]; discriminate]|].
    rewrite andb_true_iff, Ascii.eqb_eq, IH.
    split.
    + intros [-> [t ->]]. exists t. reflexivity.
    + intros [t H]. injection H as -> ->. eauto.
Qed.

Lemma strstr_contains hay needle :
  strstr hay needle <> None <-> contains hay needle.
Proof.
  induction hay as [|c hay IH]; simpl.
  - destruct (is_prefix needle []) eqn:E.
    + split; [|discriminate]. intros _.
      apply is_prefix_spec in E. destruct E as [t E].
      exists [], t. exact E.
    + split; [tauto|]. intros [pre [post H]].
      destruct pre; [|discriminate]. simpl in H.
      assert (is_prefix needle [] = true) by (apply is_prefix_spec; eauto).
      congruence.
  - destruct (is_prefix needle (c :: hay)) eqn:E.
    + split; [|discriminate]. intros _.
      apply is_prefix_spec in E. destruct E as [t E].
      exists [], t. exact E.
    + rewrite IH. split.
      * intros [pre [post ->]]. exists (c :: pre), post. reflexivity.
      * intros [pre [post H]]. destruct pre as [|c' pre].
        -- simpl in H.
           assert (is_prefix needle (c :: hay) = true)
             by (apply is_prefix_spec; eauto).
           congruence.
        -- injection H as _ ->. exists pre, post. reflexivity.
Qed.

Lemma strstr_none hay needle :
  strstr hay needle = None <-> ~ contains hay needle.
Proof.
  rewrite <- strstr_contains.
  destruct (strstr hay needle) as [r|].
  - split; [discriminate|]. intros H. exfalso. apply H. discriminate.
  - split; [|reflexivity]. intros _ H. now apply H.
Qed.

Lemma mem_byte_digits c : mem_byte c (lit "0123456789") = isdigit c.
Proof.
  destruct c as [[] [] [] [] [] [] [] []]; reflexivity.
Qed.

Lemma strspn_digits s :
  (strspn s (lit "0123456789") =? strlen s)%nat = forallb isdigit s.
Proof.
  unfold strlen. induction s as [|c s IH]; [reflexivity|].
  cbn [strspn length forallb]. rewrite mem_byte_digits.
  destruct (isdigit c); simpl; [exact IH | reflexivity].
Qed.

(* ===================================================================== *)
(** ** The lexing functions *)
(* ===================================================================== *)

Lemma skip_space_app ws s : all_space ws -> skip_space (ws ++ s) = skip_space s.
Proof.
  unfold all_space. induction ws as [|c ws IH]; simpl; [reflexivity|].
  rewrite andb_true_iff. intros [-> H]. auto.
Qed.

Lemma skip_space_stop s : stops isspace s -> skip_space s = s.
Proof. destruct s as [|c s]; simpl; [reflexivity | now intros ->]. Qed.

Lemma skip_space_spec s :
  exists ws, s = ws ++ skip_space s /\ all_space ws /\ stops isspace (skip_space s).
Proof.
  unfold all_space. induction s as [|c s (ws & IH1 & IH2 & IH3)]; simpl.
  - exists []. simpl. auto.
  - destruct (isspace c) eqn:E.
    + exists (c :: ws). simpl. rewrite E, <- IH1. auto.
    + exists []. simpl. auto.
Qed.

Lemma span_token_app t r :
  no_space t -> stops (fun c => negb (isspace c)) r -> span_token (t ++ r) = (t, r).
Proof.
  unfold no_space. induction t as [|c t IH]; simpl.
  - intros _ H. destruct r as [|d r]; [reflexivity|]. simpl in *.
    apply negb_false_iff in H. now rewrite H.
  - rewrite andb_true_iff, negb_true_iff. intros [-> Ht] Hr.
    now rewrite IH.
Qed.

Lemma span_token_spec s t r :
  span_token s = (t, r) ->
  s = t ++ r /\ no_space t /\ stops (fun c => negb (isspace c)) r.
Proof.
  unfold no_space. revert t r. induction s as [|c s IH]; intros t r; simpl.
  - intros H. injection H as <- <-. simpl. auto.
  - destruct (isspace c) eqn:E.
    + intros H. injection H as <- <-. simpl. rewrite E. auto.
    + destruct (span_token s) as [t' r'].
      intros H. injection H as <- <-.
      destruct (IH _ _ eq_refl) as (-> & H2 & H3).
      simpl. rewrite E. auto.
Qed.

Lemma span_digits_app ds r :
  all_digits ds -> stops isdigit r -> span_digits (ds ++ r) = (ds, r).
Proof.
  unfold all_digits. induction ds as [|c ds IH]; simpl.
  - intros _ H. destruct r as [|d r]; [reflexivity|]. simpl in *. now rewrite H.
  - rewrite andb_true_iff. intros [-> Ht] Hr. now rewrite IH.
Qed.

Lemma span_digits_spec s ds r :
  span_digits s = (ds, r) -> s = ds ++ r /\ all_digits ds /\ stops isdigit r.
Proof.
  unfold all_digits. revert ds r. induction s as [|c s IH]; intros ds r; simpl.
  - intros H. injection H as <- <-. simpl. auto.
  - destruct (isdigit c) eqn:E.
    + destruct (span_digits s) as [t' r'].
      intros H. injection H as <- <-.
      destruct (IH _ _ eq_refl) as (-> & H2 & H3).
      simpl. rewrite E. auto.
    + intros H. injection H as <- <-. simpl. auto.
Qed.

Lemma scan_decimal_app num v rest :
  decimal num v -> stops isdigit rest -> scan_decimal (num ++ rest) = Some (v, rest).
Proof.
  intros (sign & ds & -> & Hne & Hds & Hv) Hr.
  destruct ds as [|d ds]; [congruence|].
  assert (Hd : isdigit d = true).
  { unfold all_digits in Hds. simpl in Hds. now apply andb_true_iff in Hds. }
  destruct (digit_not_sign _ Hd) as [Hm Hp].
  unfold scan_decimal.
  destruct Hv as [[[-> | ->] ->] | [-> ->]]; simpl app; cbv beta iota.
  - rewrite Hm, Hp.
    change (d :: ds ++ rest) with ((d :: ds) ++ rest).
    now rewrite span_digits_app.
  - change (Ascii.eqb "+" "-") with false. change (Ascii.eqb "+" "+") with true.
    cbv iota.
    change (d :: ds ++ rest) with ((d :: ds) ++ rest).
    now rewrite span_digits_app.
  - change (Ascii.eqb "-" "-") with true. cbv iota.
    change (d :: ds ++ rest) with ((d :: ds) ++ rest).
    now rewrite span_digits_app.
Qed.

Lemma scan_decimal_spec s v rest :
  scan_decimal s = Some (v, rest) ->
  exists num, s = num ++ rest /\ decimal num v /\ stops isdigit rest.
Proof.
  unfold scan_decimal.
  destruct s as [|c t].
  - simpl. discriminate.
  - destruct (Ascii.eqb_spec c "-") as [->|Hm];
      [|destruct (Ascii.eqb_spec c "+") as [->|Hp]].
    + destruct (span_digits t) as [ds r] eqn:E.
      destruct ds as [|d ds]; [discriminate|].
      intros H. injection H as <- <-.
      destruct (span_digits_spec _ _ _ E) as (-> & H2 & H3).
      exists (lit "-" ++ d :: ds). repeat split; auto.
      exists (lit "-"), (d :: ds). repeat split; auto. discriminate.
    + destruct (span_digits t) as [ds r] eqn:E.
      destruct ds as [|d ds]; [discriminate|].
      intros H. injection H as <- <-.
      destruct (span_digits_spec _ _ _ E) as (-> & H2 & H3).
      exists (lit "+" ++ d :: ds). repeat split; auto.
      exists (lit "+"), (d :: ds). repeat split; auto. discriminate.
    + destruct (span_digits (c :: t)) as [ds r] eqn:E.
      destruct ds as [|d ds]; [discriminate|].
      intros H. injection H as <- <-.
      destruct (span_digits_spec _ _ _ E) as (-> & H2 & H3).
      exists (d :: ds). repeat split; auto.
      exists [], (d :: ds). repeat split; auto. discriminate.
Qed.

(* ===================================================================== *)
(** ** One line of the status record *)
(* ===================================================================== *)

Lemma skip_space_idem s : skip_space (skip_space s) = skip_space s.
Proof.
  destruct (skip_space_spec s) as (ws & _ & _ & H).
  now apply skip_space_stop.
Qed.

Lemma sscanf_status line :
  sscanf line (lit "%s %ld kB") 64 =
  match skip_space (cstr line) with
  | [] => Ok (EOF, mkscan 0 None None)
  | c :: s0 =>
      let (tok, s1) := span_token (c :: s0) in
      if (64 <=? length tok)%nat then Undefined
      else match scan_decimal (skip_space s1) with
           | None => Ok (1, mkscan 1 (Some tok) None)
           | Some (v, _) =>
               if in_long v then Ok (2, mkscan 2 (Some tok) (Some v))
               else Undefined
           end
  end.
Proof.
  unfold sscanf.
  change (parse_format (lit "%s %ld kB"))
    with [Dstr; Dspace; Dlong; Dspace; Dchar "k"; Dchar "B"].
  cbn [run_directives].
  destruct (skip_space (cstr line)) as [|c s0]; [reflexivity|].
  destruct (span_token (c :: s0)) as [tok s1].
  destruct (64 <=? length tok)%nat; [|cbn [run_directives]]; [reflexivity|].
  rewrite skip_space_idem.
  destruct (skip_space s1) as [|d s2] eqn:E; [reflexivity|].
  destruct (scan_decimal (d :: s2)) as [[v rest]|]; [|reflexivity].
  destruct (in_long v); [|reflexivity].
  cbn [sc_count sc_key sc_value input_failure matching_failure].
  change (0 + 1 + 1) with 2. change (2 =? 0) with false. cbv iota.
  destruct (skip_space rest) as [|k s3]; [reflexivity|].
  destruct (Ascii.eqb "k" k); [|reflexivity].
  destruct s3 as [|b s4]; [reflexivity|].
  destruct (Ascii.eqb "B" b); reflexivity.
Qed.

Lemma field_key_no_nul f : ~ In NUL (field_key f).
Proof. destruct f; cbv; intuition discriminate. Qed.

Lemma bytes_eqb_eq a b : bytes_eqb a b = true <-> a = b.
Proof.
  revert b. induction a as [|c a IH]; intros [|d b]; simpl;
    try (split; [discriminate | discriminate]); [tauto|].
  rewrite andb_true_iff, Ascii.eqb_eq, IH. split; [intros []|intros [=]]; now subst.
Qed.

Lemma key_field_spec key f : key_field key = Some f <-> key = field_key f.
Proof.
  unfold key_field. cbn [find].
  destruct (bytes_eqb key (field_key VmSize)) eqn:E1;
    [apply bytes_eqb_eq in E1; subst key; destruct f; split; intros H;
     try reflexivity; discriminate|].
  destruct (bytes_eqb key (field_key VmRSS)) eqn:E2;
    [apply bytes_eqb_eq in E2; subst key; destruct f; split; intros H;
     try reflexivity; discriminate|].
  destruct (bytes_eqb key (field_key VmData)) eqn:E3;
    [apply bytes_eqb_eq in E3; subst key; destruct f; split; intros H;
     try reflexivity; discriminate|].
  destruct (bytes_eqb key (field_key VmStk)) eqn:E4;
    [apply bytes_eqb_eq in E4; subst key; destruct f; split; intros H;
     try reflexivity; discriminate|].
  split; [discriminate|]. intros ->.
  destruct f; rewrite (proj2 (bytes_eqb_eq _ _) eq_refl) in *; discriminate.
Qed.

Lemma strcmp_chain key (A : Type) (a b c d e : A) :
  ~ In NUL key ->
  (if strcmp key (lit "VmSize:") =? 0 then a
   else if strcmp key (lit "VmRSS:") =? 0 then b
   else if strcmp key (lit "VmData:") =? 0 then c
   else if strcmp key (lit "VmStk:") =? 0 then d
   else e)
  = match key_field key with
    | Some VmSize => a
    | Some VmRSS => b
    | Some VmData => c
    | Some VmStk => d
    | None => e
    end.
Proof.
  intros Hk.
  assert (Hcmp : forall f, (strcmp key (field_key f) =? 0) = bytes_eqb key (field_key f)).
  { intros f.
    pose proof (strcmp_eq key (field_key f) Hk (field_key_no_nul f)) as Heq.
    destruct (bytes_eqb key (field_key f)) eqn:E.
    - apply Z.eqb_eq, Heq, bytes_eqb_eq, E.
    - apply Z.eqb_neq. intros H. apply Heq, bytes_eqb_eq in H. congruence. }
  unfold key_field. cbn [find].
  rewrite <- (Hcmp VmSize), <- (Hcmp VmRSS), <- (Hcmp VmData), <- (Hcmp VmStk).
  cbn [field_key].
  destruct (strcmp key (lit "VmSize:") =? 0); [reflexivity|].
  destruct (strcmp key (lit "VmRSS:") =? 0); [reflexivity|].
  destruct (strcmp key (lit "VmData:") =? 0); [reflexivity|].
  destruct (strcmp key (lit "VmStk:") =? 0); reflexivity.
Qed.

Lemma first_token_no_nul line c s0 tok s1 :
  skip_space (cstr line) = c :: s0 ->
  span_token (c :: s0) = (tok, s1) ->
  ~ In NUL tok.
Proof.
  intros Hs Ht Hin.
  destruct (skip_space_spec (cstr line)) as (ws & Hws & _).
  destruct (span_token_spec _ _ _ Ht) as (Htok & _).
  apply (cstr_no_nul line).
  rewrite Hws, Hs, Htok. apply in_or_app. right. apply in_or_app. now left.
Qed.

Lemma memory_usage_line_assign line mem :
  memory_usage_line line mem =
  bind (line_assign line) (fun a => Ok (apply_assign a mem)).
Proof.
  unfold memory_usage_line, line_assign. rewrite sscanf_status.
  destruct (skip_space (cstr line)) as [|c s0] eqn:Hs; [reflexivity|].
  destruct (span_token (c :: s0)) as [tok s1] eqn:Ht.
  destruct (64 <=? length tok)%nat; [reflexivity|].
  destruct (scan_decimal (skip_space s1)) as [[v rest]|]; [|reflexivity].
  destruct (in_long v); [|reflexivity].
  cbn [bind sc_key sc_value]. change (2 =? 2) with true. cbv iota.
  rewrite strcmp_chain by (eapply first_token_no_nul; eauto).
  destruct (key_field tok) as [[]|]; reflexivity.
Qed.

Lemma decimal_stops_space num v rest : decimal num v -> stops isspace (num ++ rest).
Proof.
  intros (sign & ds & -> & Hne & Hds & Hv).
  destruct ds as [|d ds]; [congruence|].
  assert (Hd : isdigit d = true).
  { unfold all_digits in Hds. simpl in Hds. now apply andb_true_iff in Hds. }
  destruct Hv as [[[-> | ->] _] | [-> _]]; try reflexivity.
  simpl. now apply digit_not_space.
Qed.

Lemma space_run_stops ws s :
  all_space ws -> ws <> [] -> stops (fun c => negb (isspace c)) (ws ++ s).
Proof.
  unfold all_space. destruct ws as [|c ws]; [congruence|]. simpl.
  rewrite andb_true_iff. intros [-> _] _. reflexivity.
Qed.

(** A line of the key-value shape is read as that key and that value. *)
Lemma line_assign_shape line key v :
  key_value_shape (cstr line) key v ->
  key <> [] -> no_space key -> (length key < 64)%nat ->
  line_assign line =
  if in_long v then Ok (option_map (fun f => (f, v)) (key_field key))
  else Undefined.
Proof.
  intros (ws1 & ws2 & num & rest & Heq & Hw1 & Hw2 & Hne & Hnum & Hrest)
         Hk Hns Hlen.
  unfold line_assign. rewrite Heq, skip_space_app by exact Hw1.
  destruct key as [|c k]; [congruence|].
  assert (Hc : isspace c = false).
  { unfold no_space in Hns. simpl in Hns.
    apply andb_true_iff in Hns. now apply negb_true_iff. }
  rewrite skip_space_stop by exact Hc.
  cbn [app].
  change (c :: k ++ ws2 ++ num ++ rest) with ((c :: k) ++ ws2 ++ num ++ rest).
  rewrite span_token_app by (auto using space_run_stops).
  destruct (Nat.leb_spec 64 (length (c :: k))) as [H|_]; [lia|].
  rewrite skip_space_app by exact Hw2.
  rewrite skip_space_stop by (apply (decimal_stops_space num v rest Hnum)).
  rewrite (scan_decimal_app num v rest Hnum Hrest).
  reflexivity.
Qed.

(** What the lexing of a line says about its text. *)
Lemma line_lex line c s0 tok s1 :
  skip_space (cstr line) = c :: s0 ->
  span_token (c :: s0) = (tok, s1) ->
  (exists ws, cstr line = ws ++ tok ++ s1 /\ all_space ws /\ no_space tok)
  /\ forall v rest,
       scan_decimal (skip_space s1) = Some (v, rest) ->
       key_value_shape (cstr line) tok v.
Proof.
  intros Hs Ht.
  destruct (skip_space_spec (cstr line)) as (ws1 & Hline & Hw1 & _).
  destruct (span_token_spec _ _ _ Ht) as (Htok & Hns & Hstop).
  rewrite Hs, Htok in Hline.
  split; [exists ws1; auto|].
  intros v rest Hnum.
  destruct (skip_space_spec s1) as (ws2 & Hs1 & Hw2 & Hstop2).
  destruct (scan_decimal_spec _ _ _ Hnum) as (num & Hn & Hdec & Hrest).
  exists ws1, ws2, num, rest. repeat split; auto.
  - rewrite Hline at 1. rewrite Hs1 at 1. now rewrite Hn.
  - intros ->. simpl in Hs1. rewrite <- Hs1 in Hstop2, Hn.
    destruct s1 as [|d s1'].
    + destruct num; discriminate.
    + simpl in Hstop, Hstop2. rewrite Hstop2 in Hstop. discriminate.
Qed.

Lemma field_key_token f :
  field_key f <> [] /\ no_space (field_key f) /\ (length (field_key f) < 64)%nat.
Proof. destruct f; repeat split; try discriminate; simpl; lia. Qed.

Lemma memory_usage_line_shape line f v mem :
  key_value_shape (cstr line) (field_key f) v -> in_long v = true ->
  memory_usage_line line mem = Ok (set_field f v mem).
Proof.
  intros Hshape Hv.
  destruct (field_key_token f) as (H1 & H2 & H3).
  rewrite memory_usage_line_assign,
    (line_assign_shape _ _ _ Hshape H1 H2 H3), Hv.
  assert (Hf : key_field (field_key f) = Some f) by now apply key_field_spec.
  rewrite Hf. reflexivity.
Qed.

Lemma line_assign_inv line f v :
  line_assign line = Ok (Some (f, v)) ->
  key_value_shape (cstr line) (field_key f) v /\ in_long v = true.
Proof.
  unfold line_assign.
  destruct (skip_space (cstr line)) as [|c s0] eqn:Hs; [discriminate|].
  destruct (span_token (c :: s0)) as [tok s1] eqn:Ht.
  destruct (line_lex _ _ _ _ _ Hs Ht) as [_ Hlex].
  destruct (64 <=? length tok)%nat; [discriminate|].
  destruct (scan_decimal (skip_space s1)) as [[v' rest]|] eqn:Hn;
    [|discriminate].
  destruct (in_long v') eqn:Hv; [|discriminate].
  destruct (key_field tok) as [f'|] eqn:Hf; simpl; [|discriminate].
  intros H. injection H as -> ->.
  apply key_field_spec in Hf. subst tok. eauto.
Qed.

Lemma memory_usage_line_inv line mem mem' :
  memory_usage_line line mem = Ok mem' ->
  mem' = mem
  \/ exists f v,
       key_value_shape (cstr line) (field_key f) v
       /\ in_long v = true /\ mem' = set_field f v mem.
Proof.
  rewrite memory_usage_line_assign.
  destruct (line_assign line) as [[[f v]|]|] eqn:E; simpl; try discriminate.
  - intros H. injection H as <-. right. exists f, v.
    destruct (line_assign_inv _ _ _ E). auto.
  - intros H. injection H as <-. now left.
Qed.

Lemma memory_usage_line_undefined line mem :
  memory_usage_line line mem = Undefined ->
  (exists ws tok rest,
      cstr line = ws ++ tok ++ rest
      /\ all_space ws /\ no_space tok /\ (64 <= length tok)%nat)
  \/ exists key v, key_value_shape (cstr line) key v /\ in_long v = false.
Proof.
  rewrite memory_usage_line_assign. unfold line_assign.
  destruct (skip_space (cstr line)) as [|c s0] eqn:Hs; [discriminate|].
  destruct (span_token (c :: s0)) as [tok s1] eqn:Ht.
  destruct (line_lex _ _ _ _ _ Hs Ht) as [(ws & Hline & Hw & Hns) Hlex].
  destruct (Nat.leb_spec 64 (length tok)) as [Hlen|_].
  { intros _. left. exists ws, tok, s1. auto. }
  destruct (scan_decimal (skip_space s1)) as [[v rest]|] eqn:Hn;
    [|discriminate].
  destruct (in_long v) eqn:Hv; [discriminate|].
  intros _. right. exists tok, v. eauto.
Qed.

(* ===================================================================== *)
(** ** The loop over the status record *)
(* ===================================================================== *)

Lemma read_line_app n s buf rest e :
  read_line n s = (buf, rest, e) -> s = buf ++ rest.
Proof.
  revert s buf rest e.
  induction n as [|n IH]; intros s buf rest e H; simpl in H.
  - injection H as <- <- _. reflexivity.
  - destruct s as [|c s']; [injection H as <- <- _; reflexivity|].
    destruct (Ascii.eqb c NL); [injection H as <- <- _; reflexivity|].
    destruct (read_line n s') as [[l r] e'] eqn:E.
    injection H as <- <- _. apply IH in E. now rewrite E.
Qed.

Lemma fgets_app size f buf f' :
  fgets size f = Some (buf, f') ->
  f_data f = buf ++ f_data f' /\ f_ioerr f' = f_ioerr f.
Proof.
  unfold fgets.
  destruct (read_line (size - 1) (f_data f)) as [[b r] e] eqn:E.
  apply read_line_app in E.
  destruct (e && _); [discriminate|].
  intros H. injection H as <- <-. auto.
Qed.

Lemma read_line_text_line n body rest :
  ~ In NL body -> (length body < n)%nat ->
  read_line n (body ++ NL :: rest) = (body ++ [NL], rest, false).
Proof.
  revert n. induction body as [|c body IH]; intros n Hnl Hlen.
  - destruct n; [simpl in Hlen; lia|]. reflexivity.
  - destruct n; [simpl in Hlen; lia|]. simpl in *.
    destruct (Ascii.eqb_spec c NL) as [->|_]; [tauto|].
    rewrite IH by (tauto || lia). reflexivity.
Qed.

Lemma fgets_text_line l rest e :
  text_line l -> fgets 256 (mkfile (l ++ rest) e) = Some (l, mkfile rest e).
Proof.
  intros (body & -> & Hnl & Hlen). unfold fgets. cbn [f_data f_ioerr].
  rewrite <- app_assoc. cbn [app].
  rewrite length_app in Hlen. simpl in Hlen.
  rewrite read_line_text_line by (auto; lia).
  reflexivity.
Qed.

Lemma fgets_empty size e : fgets (S (S size)) (mkfile [] e) = None.
Proof. unfold fgets. simpl. now rewrite orb_true_r. Qed.

Lemma memory_usage_loop_eq f mem :
  memory_usage_loop f mem =
  match fgets 256 f with
  | None => Ok mem
  | Some (line, f') =>
      bind (memory_usage_line line mem) (fun mem' => memory_usage_loop f' mem')
  end.
Proof.
  funelim (memory_usage_loop f mem).
  - now rewrite e.
  - rewrite Hget, Heq. reflexivity.
  - rewrite Hget, Heq. reflexivity.
Qed.

(** On a record made of whole lines the loop serves the lines in turn. *)
Lemma memory_usage_loop_lines ls e mem :
  Forall text_line ls ->
  memory_usage_loop (mkfile (concat ls) e) mem = run_lines ls mem.
Proof.
  intros H. revert mem. induction H as [|l ls Hl _ IH]; intros mem.
  - rewrite memory_usage_loop_eq. simpl concat. now rewrite fgets_empty.
  - rewrite memory_usage_loop_eq. simpl concat.
    rewrite fgets_text_line by exact Hl. simpl.
    destruct (memory_usage_line l mem); simpl; auto.
Qed.

(** A property of the record that every line keeps holds when the loop
    ends. *)
Lemma memory_usage_loop_invariant (P : memory_info -> Prop) (Q : bytes -> Prop) :
  (forall a b, Q (a ++ b) -> Q a /\ Q b) ->
  (forall line mem mem',
      Q line -> P mem -> memory_usage_line line mem = Ok mem' -> P mem') ->
  forall f mem mem',
    Q (f_data f) -> P mem -> memory_usage_loop f mem = Ok mem' -> P mem'.
Proof.
  intros Hsplit Hstep f mem.
  funelim (memory_usage_loop f mem); intros mem'' HQ HP Hrun.
  - injection Hrun as <-. exact HP.
  - destruct (fgets_app _ _ _ _ Hget) as [Hdata _].
    rewrite Hdata in HQ. destruct (Hsplit _ _ HQ) as [HQ1 HQ2].
    eapply H; eauto.
  - discriminate.
Qed.

Lemma get_set_field f g v mem :
  get_field f (set_field g v mem) = if field_eqb f g then v else get_field f mem.
Proof. destruct f, g; reflexivity. Qed.

Lemma field_eqb_eq f g : field_eqb f g = true <-> f = g.
Proof. destruct f, g; simpl; split; congruence. Qed.

Lemma digits_value_nonneg ds : all_digits ds -> 0 <= digits_value ds.
Proof.
  unfold digits_value, all_digits.
  assert (H : forall acc, 0 <= acc -> forallb isdigit ds = true ->
                0 <= fold_left (fun a c => 10 * a + digit_val c) ds acc).
  { induction ds as [|c ds IH]; intros acc Hacc; cbn [fold_left forallb];
      [auto|].
    rewrite andb_true_iff. intros [Hc Hds]. apply IH; [|exact Hds].
    unfold isdigit in Hc. unfold digit_val. lia. }
  apply H. lia.
Qed.

Lemma run_lines_app ls1 ls2 mem :
  run_lines (ls1 ++ ls2) mem = bind (run_lines ls1 mem) (run_lines ls2).
Proof.
  revert mem. induction ls1 as [|l ls1 IH]; intros mem; simpl; [reflexivity|].
  destruct (memory_usage_line l mem); simpl; auto.
Qed.



(** A line that is read as another assignment, or as none, does not have
    the key-value shape for the key of [f]. *)
Lemma no_shape_by_assign line f a :
  line_assign line = Ok a ->
  (forall v, a <> Some (f, v)) ->
  forall v, ~ key_value_shape (cstr line) (field_key f) v.
Proof.
  intros Ha Hne v Hshape.
  destruct (field_key_token f) as (H1 & H2 & H3).
  rewrite (line_assign_shape _ _ _ Hshape H1 H2 H3) in Ha.
  destruct (in_long v); [|discriminate].
  assert (Hf : key_field (field_key f) = Some f) by now apply key_field_spec.
  rewrite Hf in Ha. simpl in Ha. injection Ha as <-. now apply (Hne v).
Qed.

Lemma line_defined_by_assign line a :
  line_assign line = Ok a -> forall m, memory_usage_line line m <> Undefined.
Proof.
  intros Ha m. rewrite memory_usage_line_assign, Ha. discriminate.
Qed.

(* ===================================================================== *)
(** ** The scan of the process listing *)
(* ===================================================================== *)

Lemma read_line_window n s buf rest e :
  read_line n s = (buf, rest, e) -> cstr buf = scan_window n s.
Proof.
  revert s buf rest e.
  induction n as [|n IH]; intros s buf rest e H; simpl in H.
  - injection H as <- _ _. reflexivity.
  - destruct s as [|c s']; [injection H as <- _ _; reflexivity|].
    cbn [scan_window].
    destruct (Ascii.eqb_spec c NL) as [->|Hnl].
    + injection H as <- _ _. reflexivity.
    + destruct (read_line n s') as [[l r] e'] eqn:E.
      injection H as <- _ _. cbn [cstr].
      destruct (Ascii.eqb c NUL); [reflexivity|].
      f_equal. eapply IH; eauto.
Qed.

Lemma read_line_at_end n s buf rest e :
  read_line n s = (buf, rest, e) ->
  e = ((length s <? n)%nat && negb (existsb (Ascii.eqb NL) s)).
Proof.
  revert s buf rest e.
  induction n as [|n IH]; intros s buf rest e H; simpl in H.
  - injection H as _ _ <-. reflexivity.
  - destruct s as [|c s']; [injection H as _ _ <-; reflexivity|].
    cbn [existsb length]. rewrite (Ascii.eqb_sym NL c).
    destruct (Ascii.eqb c NL).
    + injection H as _ _ <-. simpl. now rewrite andb_false_r.
    + destruct (read_line n s') as [[l r] e'] eqn:E.
      injection H as _ _ <-. apply IH in E. exact E.
Qed.

Lemma read_line_nonempty n s buf rest e :
  read_line (S n) s = (buf, rest, e) -> s <> [] -> buf <> [].
Proof.
  simpl. destruct s as [|c s']; [congruence|]. intros H _.
  destruct (Ascii.eqb c NL); [injection H as <- _ _; discriminate|].
  destruct (read_line n s') as [[l r] e'].
  injection H as <- _ _. discriminate.
Qed.

Lemma fgets_1024_none f : fgets 1024 f = None <-> unreadable f = true.
Proof.
  unfold fgets, unreadable.
  destruct (read_line (1024 - 1) (f_data f)) as [[buf rest] e] eqn:E.
  pose proof (read_line_at_end _ _ _ _ _ E) as He.
  destruct (f_data f) as [|c s] eqn:Hd.
  - simpl in E. injection E as <- _ <-. simpl. rewrite orb_true_r. tauto.
  - change (1024 - 1)%nat with 1023%nat in *.
    assert (Hb : buf <> []) by (eapply read_line_nonempty; eauto; discriminate).
    destruct buf as [|b buf]; [congruence|].
    replace (length (b :: buf) =? 0)%nat with false by reflexivity.
    rewrite orb_false_r, He.
    destruct (f_ioerr f), (length (c :: s) <? 1023)%nat,
      (negb (existsb (Ascii.eqb NL) (c :: s)));
      simpl; split; congruence.
Qed.

Lemma fgets_1024_window f buf f' :
  fgets 1024 f = Some (buf, f') -> cstr buf = scan_window 1023 (f_data f).
Proof.
  unfold fgets.
  destruct (read_line (1024 - 1) (f_data f)) as [[b rest] e] eqn:E.
  destruct (e && _); [discriminate|].
  intros H. injection H as <- _. eapply read_line_window; eauto.
Qed.

Lemma scan_window_prefix n data : exists post, cstr data = scan_window n data ++ post.
Proof.
  revert data. induction n as [|n IH]; intros data.
  - exists (cstr data). destruct data; reflexivity.
  - destruct data as [|c data]; [exists []; reflexivity|].
    cbn [scan_window cstr].
    destruct (Ascii.eqb c NUL); [exists []; reflexivity|].
    destruct (Ascii.eqb c NL); [exists (cstr data); reflexivity|].
    destruct (IH data) as [post ->]. exists post. reflexivity.
Qed.

Lemma contains_app_r s post t : contains s t -> contains (s ++ post) t.
Proof.
  intros (a & b & ->). exists a, (b ++ post). now rewrite <- !app_assoc.
Qed.

Lemma atoi_digits name :
  all_digits name ->
  atoi name =
  if in_int (digits_value name) then Ok (digits_value name) else Undefined.
Proof.
  intros Hd. unfold atoi.
  destruct name as [|c name]; [reflexivity|].
  assert (Hc : isdigit c = true).
  { unfold all_digits in Hd. simpl in Hd. now apply andb_true_iff in Hd. }
  rewrite skip_space_stop by (now apply digit_not_space).
  assert (Hdec : decimal (c :: name) (digits_value (c :: name))).
  { exists [], (c :: name).
    split; [reflexivity|]. split; [discriminate|]. split; [exact Hd|].
    left. split; [now left | reflexivity]. }
  pose proof (scan_decimal_app _ _ [] Hdec I) as Hs.
  rewrite app_nil_r in Hs. now rewrite Hs.
Qed.

(** One directory entry: a candidate ends the scan, with a read of its
    name from the released stream; any other entry is passed over. *)
Lemma node_pid_entry_match w d_name :
  entry_matches w d_name -> node_pid_entry w d_name = Undefined.
Proof.
  intros (Hd & text & Htext & Hnode).
  unfold node_pid_entry. rewrite strspn_digits, Hd.
  fold (cmdline_path d_name).
  unfold cmdline_text in Htext.
  destruct (fopen w (cmdline_path d_name)) as [f|]; [|discriminate].
  destruct (unreadable f) eqn:Hu; [discriminate|]. injection Htext as <-.
  destruct (fgets 1024 f) as [[buf f']|] eqn:Hg.
  2:{ apply fgets_1024_none in Hg. congruence. }
  rewrite (fgets_1024_window _ _ _ Hg).
  destruct (strstr (scan_window 1023 (f_data f)) (lit "node")) eqn:Hs.
  2:{ apply strstr_none in Hs. tauto. }
  reflexivity.
Qed.

Lemma node_pid_entry_skip w d_name :
  ~ entry_matches w d_name -> node_pid_entry w d_name = Ok None.
Proof.
  intros Hno. unfold node_pid_entry. rewrite strspn_digits.
  destruct (forallb isdigit d_name) eqn:Hd; [|reflexivity].
  fold (cmdline_path d_name).
  destruct (fopen w (cmdline_path d_name)) as [f|] eqn:Ho; [|reflexivity].
  destruct (fgets 1024 f) as [[buf f']|] eqn:Hg; [|reflexivity].
  rewrite (fgets_1024_window _ _ _ Hg).
  destruct (strstr (scan_window 1023 (f_data f)) (lit "node")) eqn:Hs;
    [|reflexivity].
  exfalso. apply Hno. split; [exact Hd|].
  exists (scan_window 1023 (f_data f)). split.
  - unfold cmdline_text. rewrite Ho.
    destruct (unreadable f) eqn:Hu; [|reflexivity].
    apply fgets_1024_none in Hu. congruence.
  - apply strstr_contains. congruence.
Qed.


Lemma node_pid_entry_cases w d_name :
  (~ entry_matches w d_name /\ node_pid_entry w d_name = Ok None)
  \/ (entry_matches w d_name /\ node_pid_entry w d_name = Undefined).
Proof.
  destruct (node_pid_entry w d_name) as [[pid|]|] eqn:E.
  - exfalso. revert E. unfold node_pid_entry.
    destruct (_ =? _)%nat; [|discriminate].
    destruct (fopen w _) as [f|]; [|discriminate].
    destruct (fgets 1024 f) as [[buf f']|]; [|discriminate].
    destruct (strstr _ _); discriminate.
  - left. split; [|reflexivity]. intros Hm.
    rewrite (node_pid_entry_match _ _ Hm) in E. discriminate.
  - right. split; [|reflexivity].
    unfold node_pid_entry in E. rewrite strspn_digits in E.
    destruct (forallb isdigit d_name) eqn:Hd; [|discriminate].
    fold (cmdline_path d_name) in E.
    destruct (fopen w (cmdline_path d_name)) as [f|] eqn:Ho; [|discriminate].
    destruct (fgets 1024 f) as [[buf f']|] eqn:Hg; [|discriminate].
    rewrite (fgets_1024_window _ _ _ Hg) in E.
    destruct (strstr (scan_window 1023 (f_data f)) (lit "node")) eqn:Hs;
      [|discriminate].
    split; [exact Hd|].
    exists (scan_window 1023 (f_data f)). split.
    + unfold cmdline_text. rewrite Ho.
      destruct (unreadable f) eqn:Hu; [|reflexivity].
      apply fgets_1024_none in Hu. congruence.
    + apply strstr_contains. congruence.
Qed.

(** The scan ends at a candidate, whatever the listing holds after it. *)
Lemma node_pid_loop_stop w before d_name after :
  entry_matches w d_name ->
  node_pid_loop w (before ++ d_name :: after) = Undefined.
Proof.
  intros Hm. induction before as [|x before IH]; cbn [app node_pid_loop].
  - now rewrite (node_pid_entry_match _ _ Hm).
  - destruct (node_pid_entry_cases w x) as [[_ ->]|[_ ->]];
      [exact IH | reflexivity].
Qed.

(** The scan either finds no candidate in the whole listing, or stops at
    the first one. *)
Lemma node_pid_loop_cases w entries :
  (Forall (fun x => ~ entry_matches w x) entries
   /\ node_pid_loop w entries = Ok (-1))
  \/ exists before d_name after,
       entries = before ++ d_name :: after
       /\ Forall (fun x => ~ entry_matches w x) before
       /\ entry_matches w d_name
       /\ node_pid_loop w entries = Undefined.
Proof.
  induction entries as [|x entries IH].
  - left. split; [constructor | reflexivity].
  - cbn [node_pid_loop].
    destruct (node_pid_entry_cases w x) as [[Hx ->]|[Hx ->]]; cbn [bind].
    + destruct IH as [[Hno Hr]|(before & d & after & -> & Hb & Hm & Hr)].
      * left. split; [now constructor | exact Hr].
      * right. exists (x :: before), d, after.
        split; [reflexivity|]. split; [now constructor|].
        split; [exact Hm | exact Hr].
    + right. exists [], x, entries.
      split; [reflexivity|]. split; [constructor|].
      split; [exact Hx | reflexivity].
Qed.

Lemma node_pid_entry_frame w w' d_name :
  (all_digits d_name ->
   fopen w (cmdline_path d_name) = fopen w' (cmdline_path d_name)) ->
  node_pid_entry w d_name = node_pid_entry w' d_name.
Proof.
  intros H. unfold node_pid_entry. rewrite strspn_digits.
  destruct (forallb isdigit d_name) eqn:Hd; [|reflexivity].
  fold (cmdline_path d_name). now rewrite (H Hd).
Qed.


Lemma span_token_prefix tok rest :
  no_space tok ->
  span_token (tok ++ rest) = let (t, r) := span_token rest in (tok ++ t, r).
Proof.
  unfold no_space. induction tok as [|c tok IH]; intros H.
  - cbn [app]. now destruct (span_token rest).
  - cbn [forallb] in H. apply andb_true_iff in H. destruct H as [Hc Htok].
    apply negb_true_iff in Hc. cbn [app span_token]. rewrite Hc.
    rewrite (IH Htok). now destruct (span_token rest).
Qed.

(** When the call of sscanf on a line is undefined. *)
Lemma memory_usage_line_undefined_iff line mem :
  memory_usage_line line mem = Undefined
  <-> (exists ws tok rest,
          cstr line = ws ++ tok ++ rest
          /\ all_space ws /\ no_space tok /\ (64 <= length tok)%nat)
      \/ (exists key v,
             key <> [] /\ no_space key /\ (length key < 64)%nat
             /\ key_value_shape (cstr line) key v /\ in_long v = false).
Proof.
  rewrite memory_usage_line_assign. split.
  - unfold line_assign.
    destruct (skip_space (cstr line)) as [|c s0] eqn:Hs; [discriminate|].
    destruct (span_token (c :: s0)) as [tok s1] eqn:Ht.
    destruct (line_lex _ _ _ _ _ Hs Ht) as [(ws & Hline & Hw & Hns) Hlex].
    destruct (Nat.leb_spec 64 (length tok)) as [Hlen|Hlen].
    { intros _. left. exists ws, tok, s1. auto. }
    destruct (scan_decimal (skip_space s1)) as [[v rest]|] eqn:Hn;
      [|discriminate].
    destruct (in_long v) eqn:Hv; [discriminate|].
    intros _. right. exists tok, v.
    split; [|split; [exact Hns|split; [exact Hlen|split; [eauto|exact Hv]]]].
    intros ->.
    destruct (skip_space_spec (cstr line)) as (_ & _ & _ & Hstop).
    rewrite Hs in Hstop. cbn [stops] in Hstop.
    destruct (span_token_spec _ _ _ Ht) as (Heq & _ & Hstop').
    cbn [app] in Heq. subst s1. cbn [stops] in Hstop'.
    rewrite Hstop in Hstop'. discriminate.
  - intros [(ws & tok & rest & Htext & Hw & Hns & Hlen)
           |(key & v & Hk & Hns & Hlen & Hshape & Hv)].
    + unfold line_assign. rewrite Htext, skip_space_app by exact Hw.
      destruct tok as [|c tok]; [simpl in Hlen; lia|].
      assert (Hc : isspace c = false).
      { unfold no_space in Hns. cbn [forallb] in Hns.
        apply andb_true_iff in Hns. now apply negb_true_iff. }
      rewrite skip_space_stop by exact Hc. cbn [app].
      change (c :: tok ++ rest) with ((c :: tok) ++ rest).
      rewrite span_token_prefix by exact Hns.
      destruct (span_token rest) as [t r].
      destruct (Nat.leb_spec 64 (length ((c :: tok) ++ t))) as [_|H];
        [reflexivity|].
      rewrite length_app in H. lia.
    + rewrite (line_assign_shape _ _ _ Hshape Hk Hns Hlen), Hv. reflexivity.
Qed.

(** The loop serves a whole line at the head of what is left of the
    record, and goes on with the rest. *)
Lemma memory_usage_loop_step line rest e mem :
  text_line line ->
  memory_usage_loop (mkfile (line ++ rest) e) mem
  = bind (memory_usage_line line mem)
      (fun m => memory_usage_loop (mkfile rest e) m).
Proof.
  intros Hl. rewrite memory_usage_loop_eq, fgets_text_line by exact Hl.
  reflexivity.
Qed.

Lemma negative_after_key_app_l f a b :
  negative_after_key f a -> negative_after_key f (a ++ b).
Proof.
  intros (pre & ws & post & -> & H). exists pre, ws, (post ++ b).
  split; [|exact H]. rewrite <- !app_assoc. cbn [app]. reflexivity.
Qed.

Lemma negative_after_key_app_r f a b :
  negative_after_key f b -> negative_after_key f (a ++ b).
Proof.
  intros (pre & ws & post & -> & H). exists (a ++ pre), ws, post.
  split; [now rewrite <- app_assoc | exact H].
Qed.

(** A line that gives the key of [f] a negative value shows the key, white
    space and a minus sign. *)
Lemma shape_negative line f v :
  key_value_shape (cstr line) (field_key f) v -> v < 0 ->
  negative_after_key f line.
Proof.
  intros (ws1 & ws2 & num & rest & Heq & _ & Hw2 & Hne & Hnum & _) Hv.
  destruct (cstr_prefix line) as [post Hp]. rewrite Hp.
  apply negative_after_key_app_l. rewrite Heq.
  destruct Hnum as (sign & ds & -> & _ & Hds & [[_ ->]|[-> _]]).
  - pose proof (digits_value_nonneg ds Hds). lia.
  - exists ws1, ws2, (ds ++ rest). split; [|split; assumption].
    rewrite <- !app_assoc. reflexivity.
Qed.

Lemma minus_after_key_sound f data :
  negative_after_key f data -> minus_after_key (field_key f) data = true.
Proof.
  intros (pre & ws & post & -> & Hw & Hne).
  induction pre as [|c pre IH].
  - cbn [app].
    assert (Hk : exists k key', field_key f = k :: key')
      by (destruct f; eexists; eexists; reflexivity).
    destruct Hk as (k & key' & Hk).
    assert (Hhead : minus_after_key (field_key f)
                      (field_key f ++ ws ++ "-"%char :: post)
                    = (is_prefix (field_key f)
                         (field_key f ++ ws ++ "-"%char :: post)
                       && match skipn (length (field_key f))
                                  (field_key f ++ ws ++ "-"%char :: post) with
                          | c :: r =>
                              isspace c
                              && match skip_space r with
                                 | d :: _ => Ascii.eqb d "-"
                                 | [] => false
                                 end
                          | [] => false
                          end)
                      || minus_after_key (field_key f)
                           (key' ++ ws ++ "-"%char :: post)).
    { rewrite Hk. reflexivity. }
    rewrite Hhead. apply orb_true_iff. left. apply andb_true_iff. split.
    + apply is_prefix_spec. eexists. reflexivity.
    + rewrite skipn_app, Nat.sub_diag, skipn_all. cbn [app skipn].
      destruct ws as [|s ws]; [congruence|].
      unfold all_space in Hw. cbn [forallb] in Hw.
      apply andb_true_iff in Hw. destruct Hw as [Hs Hws].
      cbn [app]. rewrite Hs, (skip_space_app ws _ Hws).
      reflexivity.
  - cbn [app minus_after_key]. rewrite IH. apply orb_true_r.
Qed.

(* ===================================================================== *)
(** ** The properties of the program *)
(* ===================================================================== *)

(** C1 (as amended).  A line of the status record of at most 255 bytes
    with its newline is served by one turn of the loop of
    [get_memory_usage] (a longer line is read in pieces of 255 bytes, each
    served as a line).  The turn assigns a field exactly when the line
    reads: optional white space, one of the keys [VmSize:], [VmRSS:],
    [VmData:], [VmStk:] as a whole token (colon included), white space,
    and a decimal integer that fits a [long]; the field of that key then
    receives the integer.  What follows the integer, the [kB] suffix
    included, is not examined.  Every other line on which the call is
    defined (missing colon, non-numeric value, unrecognized key) leaves
    all four fields at their prior values.  The call is undefined exactly
    when the first token has 64 bytes or more, or is shorter and is
    followed by an integer that does not fit a [long]. *)
Theorem status_line_updates (line : bytes) :
  (forall f v,
      key_value_shape (cstr line) (field_key f) v -> in_long v = true ->
      forall mem, memory_usage_line line mem = Ok (set_field f v mem))
  /\ (forall mem mem',
        memory_usage_line line mem = Ok mem' ->
        mem' = mem
        \/ exists f v,
             key_value_shape (cstr line) (field_key f) v
             /\ in_long v = true /\ mem' = set_field f v mem)
  /\ (forall mem,
        memory_usage_line line mem = Undefined
        <-> (exists ws tok rest,
                cstr line = ws ++ tok ++ rest
                /\ all_space ws /\ no_space tok /\ (64 <= length tok)%nat)
            \/ (exists key v,
                   key <> [] /\ no_space key /\ (length key < 64)%nat
                   /\ key_value_shape (cstr line) key v
                   /\ in_long v = false))
  /\ (text_line line ->
      forall rest e mem,
        memory_usage_loop (mkfile (line ++ rest) e) mem
        = bind (memory_usage_line line mem)
            (fun m => memory_usage_loop (mkfile rest e) m)).
Proof.
  split; [|split; [|split]].
  - intros f v Hshape Hv mem. now apply memory_usage_line_shape.
  - intros mem mem'. apply memory_usage_line_inv.
  - intros mem. apply memory_usage_line_undefined_iff.
  - intros Hl rest e mem. now apply memory_usage_loop_step.
Qed.

(** The line "VmSize: 1234" carries no [kB] at all and still sets
    [vm_size]: the claim that a missing suffix leaves the field alone
    fails on it. *)
Lemma line_without_kB_updates :
  strstr (ln "VmSize: 1234") (lit "kB") = None
  /\ memory_usage_line (ln "VmSize: 1234") mem_zero = Ok (mkmem 1234 0 0 0).
Proof. split; reflexivity. Qed.

(** The lines the specification lists. *)
Example line_well_formed :
  memory_usage_line (ln "VmSize: 1234 kB") mem_zero = Ok (mkmem 1234 0 0 0).
Proof. reflexivity. Qed.

Example line_missing_colon mem :
  memory_usage_line (ln "VmSize 1234 kB") mem = Ok mem.
Proof. rewrite memory_usage_line_assign. reflexivity. Qed.

Example line_non_numeric mem :
  memory_usage_line (ln "VmSize: lots kB") mem = Ok mem.
Proof. rewrite memory_usage_line_assign. reflexivity. Qed.

Example line_unknown_key mem :
  memory_usage_line (ln "VmPeak: 1234 kB") mem = Ok mem.
Proof. rewrite memory_usage_line_assign. reflexivity. Qed.

Example line_other_unit :
  memory_usage_line (ln "VmRSS: 7 MB") mem_zero = Ok (mkmem 0 7 0 0).
Proof. reflexivity. Qed.

(** A number without a key before it: the call is defined and nothing is
    stored. *)
Example line_number_alone mem :
  memory_usage_line (ln "  99999999999999999999") mem = Ok mem.
Proof. rewrite memory_usage_line_assign. reflexivity. Qed.

(** A line of 263 bytes that reads as a key and a value when taken whole:
    the loop gets it in two pieces, neither of which names a key. *)
Example long_line_stores_nothing :
  memory_usage_line (repeat " "%char 250 ++ ln "VmSize: 7 kB") mem_zero
  = Ok (mkmem 7 0 0 0)
  /\ get_memory_usage
       (table_world None
          [(status_path 7,
            mkfile (repeat " "%char 250 ++ ln "VmSize: 7 kB") false)]) 7
     = Ok mem_zero.
Proof. split; vm_compute; reflexivity. Qed.

(** C4.  When the status record of [pid] cannot be opened,
    [get_memory_usage] returns the record with all four fields zero.  The
    function has no other way to report the failure: its result is the
    record alone, and a record that does open (an empty one) yields the
    same value. *)
Theorem unopened_status_gives_zero (w : world) (pid : Z) :
  fopen w (status_path pid) = None ->
  get_memory_usage w pid = Ok (mkmem 0 0 0 0)
  /\ exists w',
       fopen w' (status_path pid) <> None
       /\ get_memory_usage w' pid = get_memory_usage w pid.
Proof.
  intros Hopen.
  assert (Hzero : get_memory_usage w pid = Ok (mkmem 0 0 0 0)).
  { unfold get_memory_usage. fold (status_path pid). now rewrite Hopen. }
  split; [exact Hzero|].
  exists (mkworld (opendir w) (fun _ => Some (mkfile [] false))).
  split; [discriminate|].
  rewrite Hzero. unfold get_memory_usage. cbn [fopen].
  rewrite memory_usage_loop_eq. reflexivity.
Qed.

Lemma unopened_status_gives_zero_witness :
  get_memory_usage (table_world None []) 4242 = Ok (mkmem 0 0 0 0)
  /\ exists w',
       fopen w' (status_path 4242) <> None
       /\ get_memory_usage w' 4242 = get_memory_usage (table_world None []) 4242.
Proof. exact (unopened_status_gives_zero (table_world None []) 4242 eq_refl). Defined.

(** A status record with a negative number: the field becomes negative. *)
Lemma negative_field_counterexample :
  get_memory_usage
    (table_world None [(status_path 7, mkfile (ln "VmSize: -5 kB") false)]) 7
  = Ok (mkmem (-5) 0 0 0).
Proof. reflexivity. Qed.

(** C5 (as amended).  A freshly constructed record has all four fields
    zero.  Every field of the record returned by [get_memory_usage] lies
    in the range of a [long], and a field is non-negative unless the
    status record holds its key followed by white space and a minus sign,
    as in "VmSize: -5 kB". *)
Theorem memory_info_fields :
  (forall f, get_field f mem_zero = 0)
  /\ forall w pid mem,
       get_memory_usage w pid = Ok mem ->
       (forall f, LONG_MIN <= get_field f mem <= LONG_MAX)
       /\ (forall f,
             (forall file, fopen w (status_path pid) = Some file ->
                           ~ negative_after_key f (f_data file)) ->
             0 <= get_field f mem).
Proof.
  split; [intros []; reflexivity|].
  intros w pid mem. unfold get_memory_usage. fold (status_path pid).
  destruct (fopen w (status_path pid)) as [file|].
  2:{ intros H. injection H as <-.
      split; [intros []; unfold LONG_MIN, LONG_MAX; simpl; lia|].
      intros [] _; simpl; lia. }
  intros Hrun. split.
  - apply (memory_usage_loop_invariant
             (fun m => forall f, LONG_MIN <= get_field f m <= LONG_MAX)
             (fun _ => True)) with (f := file) (mem := mem_zero);
      [tauto | | exact I | | exact Hrun].
    + intros line m m' _ Hm Hline f.
      destruct (memory_usage_line_inv _ _ _ Hline)
        as [->|(g & v & _ & Hv & ->)]; [apply Hm|].
      rewrite get_set_field. destruct (field_eqb f g); [|apply Hm].
      unfold in_long in Hv. lia.
    + intros []; unfold LONG_MIN, LONG_MAX; simpl; lia.
  - intros f Hminus.
    apply (memory_usage_loop_invariant
             (fun m => 0 <= get_field f m)
             (fun s => ~ negative_after_key f s))
      with (f := file) (mem := mem_zero);
      [ | | now apply Hminus | | exact Hrun].
    + intros a b H. split; intros Hn; apply H.
      * now apply negative_after_key_app_l.
      * now apply negative_after_key_app_r.
    + intros line m m' Hq Hm Hline.
      destruct (memory_usage_line_inv _ _ _ Hline)
        as [->|(g & v & Hshape & _ & ->)]; [exact Hm|].
      rewrite get_set_field. destruct (field_eqb f g) eqn:E; [|exact Hm].
      apply field_eqb_eq in E. subst g.
      destruct (Z.lt_ge_cases v 0) as [Hneg|]; [|assumption].
      exfalso. apply Hq. eapply shape_negative; eauto.
    + destruct f; simpl; lia.
Qed.

(** On a status record as the kernel writes it, with "0-15" in it, the
    fields are non-negative. *)
Lemma memory_info_fields_witness :
  0 <= get_field VmSize (mkmem 50000 20000 0 0).
Proof.
  apply (proj2 (proj2 memory_info_fields
                  (table_world None
                     [(status_path 42, mkfile status_excerpt false)])
                  42 (mkmem 50000 20000 0 0) eq_refl) VmSize).
  intros file H. injection H as <-. intros Hn.
  apply minus_after_key_sound in Hn. vm_compute in Hn. discriminate Hn.
Defined.




(** C8.  [get_memory_usage] depends on nothing but the status record it
    opens: two calls that meet the same record (the same bytes and the same
    read outcome) return the same result, whatever else differs between the
    two worlds and whatever the process identifiers are. *)
Theorem memory_usage_deterministic (w1 w2 : world) (pid1 pid2 : Z) :
  fopen w1 (status_path pid1) = fopen w2 (status_path pid2) ->
  get_memory_usage w1 pid1 = get_memory_usage w2 pid2.
Proof.
  intros H. unfold get_memory_usage. fold (status_path pid1) (status_path pid2).
  now rewrite H.
Qed.

Lemma memory_usage_deterministic_witness :
  get_memory_usage
    (table_world None
       [(status_path 7, mkfile (ln "VmSize: 50000 kB" ++ ln "VmRSS: 20000 kB") false)])
    7
  = get_memory_usage
      (table_world (Some [lit "9"; lit "self"])
         [(cmdline_path (lit "9"), mkfile (lit "node") false);
          (status_path 9, mkfile (ln "VmSize: 50000 kB" ++ ln "VmRSS: 20000 kB") false)])
      9.
Proof.
  exact (memory_usage_deterministic
           (table_world None
              [(status_path 7,
                mkfile (ln "VmSize: 50000 kB" ++ ln "VmRSS: 20000 kB") false)])
           (table_world (Some [lit "9"; lit "self"])
              [(cmdline_path (lit "9"), mkfile (lit "node") false);
               (status_path 9,
                mkfile (ln "VmSize: 50000 kB" ++ ln "VmRSS: 20000 kB") false)])
           7 9 eq_refl).
Defined.

(** C9.  When [/proc] itself cannot be opened, [get_node_pid] returns -1,
    the value it also returns after a listing without a match: a world
    whose listing opens (and is empty) gives the caller the same result. *)
Theorem unreadable_listing_is_not_found (w : world) :
  opendir w (lit "/proc") = None ->
  get_node_pid w = Ok (-1)
  /\ exists w',
       opendir w' (lit "/proc") <> None /\ get_node_pid w' = get_node_pid w.
Proof.
  intros H. unfold get_node_pid. rewrite H. split; [reflexivity|].
  exists (mkworld (fun _ => Some []) (fopen w)).
  split; [discriminate | reflexivity].
Qed.

Lemma unreadable_listing_is_not_found_witness :
  get_node_pid (table_world None []) = Ok (-1)
  /\ exists w',
       opendir w' (lit "/proc") <> None
       /\ get_node_pid w' = get_node_pid (table_world None []).
Proof. exact (unreadable_listing_is_not_found (table_world None []) eq_refl). Defined.




(** In [node_world] the entry "42" is a candidate: the scan ends there, with
    the read of the name after [closedir]. *)
Example node_world_candidate_42 :
  node_pid_entry node_world (lit "1") = Ok None
  /\ entry_matches node_world (lit "42")
  /\ get_node_pid node_world = Undefined.
Proof.
  split; [reflexivity|]. split; [|reflexivity].
  split; [reflexivity|].
  exists (lit "/usr/bin/node"). split; [reflexivity|].
  exists (lit "/usr/bin/"), []. reflexivity.
Qed.

Example match_is_case_sensitive :
  node_pid_entry
    (table_world None [(cmdline_path (lit "5"), mkfile (lit "Node") false)])
    (lit "5") = Ok None.
Proof. reflexivity. Qed.

(** C10.  For a candidate whose command-line record opens, the text that
    [get_node_pid] hands to [strstr] is a prefix of the part of the record
    before its first NUL byte; when that part does not contain "node" the
    candidate is passed over, whatever follows the NUL. *)
Theorem match_only_before_first_nul (w : world) (d_name : bytes) (f : file) :
  fopen w (cmdline_path d_name) = Some f ->
  (forall buf f',
      fgets 1024 f = Some (buf, f') ->
      exists post, cstr (f_data f) = cstr buf ++ post)
  /\ (~ contains (cstr (f_data f)) (lit "node") ->
      node_pid_entry w d_name = Ok None).
Proof.
  intros Hopen. split.
  - intros buf f' Hg. rewrite (fgets_1024_window _ _ _ Hg).
    apply scan_window_prefix.
  - intros Hno. apply node_pid_entry_skip.
    intros (_ & text & Htext & Hnode). apply Hno.
    unfold cmdline_text in Htext. rewrite Hopen in Htext.
    destruct (unreadable f); [discriminate|]. injection Htext as <-.
    destruct (scan_window_prefix 1023 (f_data f)) as [post ->].
    now apply contains_app_r.
Qed.

Lemma match_only_before_first_nul_witness :
  (exists post,
      cstr (f_data python_cmdline)
      = cstr (lit "python3" ++ NUL :: lit "nodes.py" ++ [NUL]) ++ post)
  /\ node_pid_entry python_world (lit "42") = Ok None.
Proof.
  destruct (match_only_before_first_nul python_world (lit "42") python_cmdline
              eq_refl) as [Hprefix Hskip].
  split.
  - exact (Hprefix _ (mkfile [] false) eq_refl).
  - apply Hskip. apply strstr_none. reflexivity.
Defined.

Example python_entry_passed_over :
  cstr (f_data python_cmdline) = lit "python3"
  /\ node_pid_entry python_world (lit "42") = Ok None.
Proof. split; reflexivity. Qed.

(** C3.  [main] prints "No Node.js process found" and exits with status 1
    when [get_node_pid] returns -1; otherwise it prints the identifier,
    and then prints "Failed to read memory information" and exits with
    status 1 when [vm_size] of the record read is zero, or prints the
    metrics and exits with status 0 when it is not.  The same is said of
    [main_from], the statements of [main] that follow the call of
    [get_node_pid], for every value the call may give. *)
Theorem main_exit_status (w : world) :
  (get_node_pid w = Ok (-1) ->
   main w = Ok (ln "No Node.js process found", 1))
  /\ (forall pid mem,
        get_node_pid w = Ok pid -> pid <> -1 ->
        get_memory_usage w pid = Ok mem ->
        (vm_size mem = 0 ->
         main w = Ok (lit "Found Node.js process: PID " ++ fmt_d pid ++ [NL]
                      ++ ln "Failed to read memory information", 1))
        /\ (vm_size mem <> 0 ->
            main w = Ok (lit "Found Node.js process: PID " ++ fmt_d pid ++ [NL]
                         ++ display_memory mem, 0)))
  /\ (forall out status,
        main w = Ok (out, status) ->
        (status = 1 /\
         (get_node_pid w = Ok (-1)
          \/ exists pid mem,
               get_node_pid w = Ok pid /\ get_memory_usage w pid = Ok mem
               /\ vm_size mem = 0))
        \/ (status = 0 /\
            exists pid mem,
              get_node_pid w = Ok pid /\ pid <> -1
              /\ get_memory_usage w pid = Ok mem /\ vm_size mem <> 0))
  /\ main w = bind (get_node_pid w) (main_from w)
  /\ main_from w (-1) = Ok (ln "No Node.js process found", 1)
  /\ (forall pid mem,
        pid <> -1 -> get_memory_usage w pid = Ok mem ->
        (vm_size mem = 0 ->
         main_from w pid
         = Ok (lit "Found Node.js process: PID " ++ fmt_d pid ++ [NL]
               ++ ln "Failed to read memory information", 1))
        /\ (vm_size mem <> 0 ->
            main_from w pid
            = Ok (lit "Found Node.js process: PID " ++ fmt_d pid ++ [NL]
                  ++ display_memory mem, 0)))
  /\ (forall pid out status,
        main_from w pid = Ok (out, status) ->
        (status = 1 /\
         (pid = -1
          \/ exists mem, get_memory_usage w pid = Ok mem /\ vm_size mem = 0))
        \/ (status = 0 /\ pid <> -1 /\
            exists mem, get_memory_usage w pid = Ok mem /\ vm_size mem <> 0)).
Proof.
  assert (Hfrom : forall pid mem,
             pid <> -1 -> get_memory_usage w pid = Ok mem ->
             (vm_size mem = 0 ->
              main_from w pid
              = Ok (lit "Found Node.js process: PID " ++ fmt_d pid ++ [NL]
                    ++ ln "Failed to read memory information", 1))
             /\ (vm_size mem <> 0 ->
                 main_from w pid
                 = Ok (lit "Found Node.js process: PID " ++ fmt_d pid ++ [NL]
                       ++ display_memory mem, 0))).
  { intros pid mem Hpid Hmem. unfold main_from.
    destruct (Z.eqb_spec pid (-1)) as [|_]; [contradiction|].
    rewrite Hmem. cbn [bind]. rewrite <- !app_assoc.
    split; intros Hv.
    - rewrite Hv. reflexivity.
    - destruct (Z.eqb_spec (vm_size mem) 0); [contradiction | reflexivity]. }
  assert (Hinv : forall pid out status,
             main_from w pid = Ok (out, status) ->
             (status = 1 /\
              (pid = -1
               \/ exists mem,
                    get_memory_usage w pid = Ok mem /\ vm_size mem = 0))
             \/ (status = 0 /\ pid <> -1 /\
                 exists mem,
                   get_memory_usage w pid = Ok mem /\ vm_size mem <> 0)).
  { intros pid out status. unfold main_from.
    destruct (Z.eqb_spec pid (-1)) as [->|Hpid].
    { intros H. injection H as _ <-. left. auto. }
    destruct (get_memory_usage w pid) as [mem|] eqn:Emem; [|discriminate].
    cbn [bind].
    destruct (Z.eqb_spec (vm_size mem) 0) as [Hv|Hv];
      intros H; injection H as _ <-.
    - left. split; [reflexivity|]. right. exists mem. auto.
    - right. split; [reflexivity|]. split; [exact Hpid|]. exists mem. auto. }
  unfold main.
  split; [|split; [|split; [|split; [|split; [|split]]]]].
  - intros ->. reflexivity.
  - intros pid mem -> Hpid Hmem. cbn [bind]. now apply Hfrom.
  - intros out status.
    destruct (get_node_pid w) as [pid|] eqn:Epid; [|discriminate]. cbn [bind].
    intros H.
    destruct (Hinv _ _ _ H) as [[-> [->|(mem & Hmem & Hv)]]
                               |(-> & Hpid & mem & Hmem & Hv)].
    + left. auto.
    + left. split; [reflexivity|]. right. exists pid, mem. auto.
    + right. split; [reflexivity|]. exists pid, mem. auto.
  - reflexivity.
  - reflexivity.
  - exact Hfrom.
  - exact Hinv.
Qed.

(** The end-to-end scenario of the specification, from the identifier on:
    the status record of process 42 is read and displayed. *)
Example main_from_node_world :
  main_from node_world 42 =
  Ok (ln "Found Node.js process: PID 42"
      ++ ln "Memory Usage (KB):"
      ++ ln "Virtual Size: 50000"
      ++ ln "Physical RSS: 20000"
      ++ ln "Data Segment: 10000"
      ++ ln "Stack Size: 132"
      ++ ln ""
      ++ ln "Memory Usage (MB):"
      ++ ln "Virtual Size: 48.83"
      ++ ln "Physical RSS: 19.53", 0).
Proof. vm_compute. reflexivity. Qed.

Example main_empty_table :
  main (table_world (Some []) []) = Ok (ln "No Node.js process found", 1).
Proof. reflexivity. Qed.

(* ===================================================================== *)
(** ** The display *)
(* ===================================================================== *)

Lemma double_of_long_exact x : Z.abs x < 2 ^ 53 -> double_of_long x = x.
Proof.
  intros H. unfold double_of_long.
  destruct (Z.ltb_spec (Z.abs x) (2 ^ 53)); [reflexivity | lia].
Qed.

(** The hundredths printed are within half a hundredth of the quotient. *)
Lemma round_hundredths_near n :
  (Qabs ((round_hundredths (n # 1024) # 100) - Qabs (n # 1024)) <= 1 # 200)%Q.
Proof.
  unfold round_hundredths. cbn [Qnum Qden].
  pose proof (Z.div_mod (Z.abs n * 100) 1024 ltac:(lia)) as Hdm.
  pose proof (Z.mod_pos_bound (Z.abs n * 100) 1024 ltac:(lia)) as Hr.
  set (k := Z.abs n * 100 / 1024) in *.
  set (r := (Z.abs n * 100) mod 1024) in *.
  assert (Hgoal : forall h, Z.abs (1024 * h - Z.abs n * 100) <= 512 ->
            (Qabs ((h # 100) - Qabs (n # 1024)) <= 1 # 200)%Q).
  { intros h Hh. unfold Qle, Qabs, Qminus, Qplus, Qopp. cbn [Qnum Qden].
    change (Z.pos (100 * 1024)) with 102400. lia. }
  apply Hgoal.
  destruct (Z.ltb_spec (2 * r) 1024); [lia|].
  destruct (Z.ltb_spec 1024 (2 * r)); [lia|].
  destruct (Z.even k); lia.
Qed.

(** C7.  [display_memory] prints the four fields in kilobytes in the order
    virtual size, RSS, data segment, stack, and then the virtual size and
    the RSS divided by 1024.0 with two decimals: for a value below 2^53 the
    text is the sign, the integer part, a point and two digits of a number
    of hundredths that lies within half a hundredth of the quotient (above
    2^53 the [long] is first rounded to a [double]).  2048 is printed as
    2.00 and 1536 as 1.50. *)
Theorem display_memory_format (mem : memory_info) :
  display_memory mem =
    ln "Memory Usage (KB):"
    ++ (lit "Virtual Size: " ++ fmt_d (vm_size mem) ++ [NL])
    ++ (lit "Physical RSS: " ++ fmt_d (vm_rss mem) ++ [NL])
    ++ (lit "Data Segment: " ++ fmt_d (vm_data mem) ++ [NL])
    ++ (lit "Stack Size: " ++ fmt_d (vm_stack mem) ++ [NL])
    ++ ln "" ++ ln "Memory Usage (MB):"
    ++ (lit "Virtual Size: " ++ fmt_2f (div_1024 (vm_size mem)) ++ [NL])
    ++ (lit "Physical RSS: " ++ fmt_2f (div_1024 (vm_rss mem)) ++ [NL])
  /\ (forall x,
        Z.abs x < 2 ^ 53 ->
        exists h,
          fmt_2f (div_1024 x) =
            (if x <? 0 then lit "-" else [])
            ++ fmt_d (h / 100) ++ lit "."
            ++ [digit_char (h / 10 mod 10); digit_char (h mod 10)]
          /\ (Qabs ((h # 100) - Qabs (x # 1024)) <= 1 # 200)%Q)
  /\ fmt_2f (div_1024 2048) = lit "2.00"
  /\ fmt_2f (div_1024 1536) = lit "1.50".
Proof.
  split; [|split; [|split; reflexivity]].
  - unfold display_memory, ln. now rewrite <- !app_assoc.
  - intros x Hx. unfold div_1024. rewrite double_of_long_exact by exact Hx.
    exists (round_hundredths (x # 1024)).
    split; [reflexivity | apply round_hundredths_near].
Qed.

Example display_ties_to_even :
  fmt_2f (div_1024 128) = lit "0.12" /\ fmt_2f (div_1024 384) = lit "0.38".
Proof. split; reflexivity. Qed.

(* ===================================================================== *)
(** ** Decimal numerals: printing and reading back *)
(* ===================================================================== *)

Lemma isdigit_cases c :
  isdigit c = true ->
  (c = "0" \/ c = "1" \/ c = "2" \/ c = "3" \/ c = "4"
   \/ c = "5" \/ c = "6" \/ c = "7" \/ c = "8" \/ c = "9")%char.
Proof.
  destruct c as [[] [] [] [] [] [] [] []]; intros H; vm_compute in H;
    try discriminate H; clear H; intuition reflexivity.
Qed.

Lemma uint_text_acc d acc :
  fold_left (fun a c => 10 * a + digit_val c)
    (lit (NilEmpty.string_of_uint d)) (Z.pos acc)
  = Z.pos (Pos.of_uint_acc d acc).
Proof.
  revert acc. induction d; intros acc; cbn [NilEmpty.string_of_uint lit
    list_ascii_of_string fold_left Pos.of_uint_acc]; try reflexivity;
    rewrite <- IHd; f_equal;
    match goal with |- context [digit_val ?c] =>
      let v := eval vm_compute in (digit_val c) in change (digit_val c) with v
    end; lia.
Qed.

Lemma uint_text_value d :
  digits_value (lit (NilEmpty.string_of_uint d)) = Z.of_uint d.
Proof.
  unfold digits_value, Z.of_uint.
  induction d; cbn [NilEmpty.string_of_uint lit list_ascii_of_string
    fold_left Pos.of_uint]; try reflexivity;
    match goal with |- context [digit_val ?c] =>
      let v := eval vm_compute in (digit_val c) in change (digit_val c) with v
    end; cbn [Z.mul Z.add]; try exact IHd;
    apply (uint_text_acc d).
Qed.

Lemma uint_text_digits d : all_digits (lit (NilEmpty.string_of_uint d)).
Proof. unfold all_digits. induction d; simpl; auto. Qed.

Lemma digits_have_uint ds :
  all_digits ds -> exists d, lit (NilEmpty.string_of_uint d) = ds.
Proof.
  unfold all_digits. induction ds as [|c ds IH]; [exists Decimal.Nil; reflexivity|].
  cbn [forallb]. rewrite andb_true_iff. intros [Hc Hds].
  destruct (IH Hds) as [d <-].
  destruct (isdigit_cases c Hc)
    as [->|[->|[->|[->|[->|[->|[->|[->|[->| ->]]]]]]]]].
  - now exists (Decimal.D0 d).
  - now exists (Decimal.D1 d).
  - now exists (Decimal.D2 d).
  - now exists (Decimal.D3 d).
  - now exists (Decimal.D4 d).
  - now exists (Decimal.D5 d).
  - now exists (Decimal.D6 d).
  - now exists (Decimal.D7 d).
  - now exists (Decimal.D8 d).
  - now exists (Decimal.D9 d).
Qed.

Lemma cstr_no_nul_id b : ~ In NUL b -> cstr b = b.
Proof.
  induction b as [|c b IH]; simpl; intros H; [reflexivity|].
  destruct (Ascii.eqb_spec c NUL) as [->|Hc]; [tauto|].
  rewrite IH; tauto.
Qed.

(** A numeral without a superfluous leading zero is printed back as it
    is. *)
Lemma fmt_d_digits name :
  all_digits name -> canonical name -> fmt_d (digits_value name) = name.
Proof.
  intros Hd Hc. destruct (digits_have_uint name Hd) as [d Hname].
  rewrite <- Hname at 1. rewrite uint_text_value.
  unfold fmt_d. change (Z.of_uint d) with (Z.of_int (Decimal.Pos d)).
  rewrite DecimalZ.to_of. cbn [Decimal.norm NilZero.string_of_int].
  assert (Hu : Decimal.unorm d = d /\ d <> Decimal.Nil).
  { destruct Hc as [->|(c & ds & -> & Hc0)].
    - destruct d as [|d| | | | | | | | |]; try discriminate Hname.
      destruct d; try discriminate Hname. split; [reflexivity | discriminate].
    - destruct d; try discriminate Hname; split; try reflexivity;
        try discriminate.
      injection Hname as <- _. congruence. }
  destruct Hu as [-> Hnil].
  rewrite <- Hname. destruct d; congruence || reflexivity.
Qed.

Lemma fold_digits_lower ds acc :
  all_digits ds -> 0 <= acc ->
  acc * 10 ^ Z.of_nat (length ds)
  <= fold_left (fun a c => 10 * a + digit_val c) ds acc.
Proof.
  unfold all_digits. revert acc.
  induction ds as [|c ds IH]; intros acc Hd Hacc.
  - simpl. lia.
  - cbn [fold_left forallb length] in *. apply andb_true_iff in Hd.
    destruct Hd as [Hc Hds].
    assert (Hv : 0 <= digit_val c) by (unfold isdigit in Hc; unfold digit_val; lia).
    specialize (IH (10 * acc + digit_val c) Hds ltac:(lia)).
    rewrite Nat2Z.inj_succ, Z.pow_succ_r by lia.
    assert (0 <= 10 ^ Z.of_nat (length ds)) by (apply Z.pow_nonneg; lia).
    nia.
Qed.

Lemma fold_digits_upper ds acc :
  all_digits ds -> 0 <= acc ->
  fold_left (fun a c => 10 * a + digit_val c) ds acc
  < (acc + 1) * 10 ^ Z.of_nat (length ds).
Proof.
  unfold all_digits. revert acc.
  induction ds as [|c ds IH]; intros acc Hd Hacc.
  - simpl. lia.
  - cbn [fold_left forallb length] in *. apply andb_true_iff in Hd.
    destruct Hd as [Hc Hds].
    assert (Hv : 0 <= digit_val c <= 9)
      by (unfold isdigit in Hc; unfold digit_val; lia).
    specialize (IH (10 * acc + digit_val c) Hds ltac:(lia)).
    rewrite Nat2Z.inj_succ, Z.pow_succ_r by lia.
    assert (0 < 10 ^ Z.of_nat (length ds)) by (apply Z.pow_pos_nonneg; lia).
    nia.
Qed.

(** A numeral without a leading zero that fits an [int] has at most ten
    digits. *)
Lemma canonical_int_length name :
  all_digits name -> canonical name -> in_int (digits_value name) = true ->
  (length name <= 10)%nat.
Proof.
  intros Hd Hc Hv. destruct Hc as [->|(c & ds & -> & Hc0)]; [simpl; lia|].
  unfold all_digits in Hd. cbn [forallb] in Hd. apply andb_true_iff in Hd.
  destruct Hd as [Hc Hds].
  assert (H1 : 1 <= digit_val c).
  { assert (digit_val c <> 0).
    { intros E. apply Hc0, code_inj. unfold digit_val in E.
      change (code "0") with 48. lia. }
    unfold isdigit in Hc. unfold digit_val in *. lia. }
  pose proof (fold_digits_lower ds (digit_val c) Hds ltac:(lia)) as Hlow.
  unfold digits_value in Hv. cbn [fold_left] in Hv.
  replace (10 * 0 + digit_val c) with (digit_val c) in Hv by lia.
  unfold in_int, INT_MIN, INT_MAX in Hv.
  destruct (Nat.le_gt_cases (length ds) 9) as [|Hlen]; [simpl; lia|].
  exfalso.
  assert (10 ^ 10 <= 10 ^ Z.of_nat (length ds))
    by (apply Z.pow_le_mono_r; lia).
  change (10 ^ 10) with 10000000000 in *. nia.
Qed.

Lemma status_path_name name :
  all_digits name -> canonical name -> in_int (digits_value name) = true ->
  status_path (digits_value name) = lit "/proc/" ++ name ++ lit "/status".
Proof.
  intros Hd Hc Hv. unfold status_path, snprintf.
  rewrite fmt_d_digits by assumption.
  apply firstn_all2. rewrite !length_app.
  pose proof (canonical_int_length name Hd Hc Hv). simpl. lia.
Qed.

Lemma unorm_head d :
  Decimal.unorm d = Decimal.D0 Decimal.Nil
  \/ exists c ds,
       lit (NilEmpty.string_of_uint (Decimal.unorm d)) = c :: ds
       /\ c <> "0"%char.
Proof.
  induction d; cbn [Decimal.unorm]; [now left | exact IHd | ..];
    right; eexists; eexists; (split; [reflexivity | discriminate]).
Qed.

(** [%d] prints a number that is not negative the way the kernel names a
    process: digits without a superfluous leading zero. *)
Lemma fmt_d_nonneg pid :
  0 <= pid ->
  all_digits (fmt_d pid) /\ canonical (fmt_d pid)
  /\ digits_value (fmt_d pid) = pid.
Proof.
  intros Hpid. destruct pid as [|p|p]; [| |lia].
  - split; [reflexivity|]. split; [now left | reflexivity].
  - assert (Hnil := DecimalPos.Unsigned.to_uint_nonnil p).
    assert (Hfmt : fmt_d (Z.pos p)
                   = lit (NilEmpty.string_of_uint (Pos.to_uint p))).
    { unfold fmt_d.
      cbn [Z.to_int NilZero.string_of_int NilZero.string_of_uint].
      destruct (Pos.to_uint p); congruence || reflexivity. }
    assert (Hu : Pos.to_uint p = Decimal.unorm (Pos.to_uint p)).
    { pose proof (DecimalPos.Unsigned.to_of (Pos.to_uint p)) as H.
      rewrite DecimalPos.Unsigned.of_to in H. exact H. }
    rewrite Hfmt. split; [apply uint_text_digits|]. split.
    + destruct (unorm_head (Pos.to_uint p)) as [H0|(c & ds & Hc & Hne)].
      * left. rewrite Hu, H0. reflexivity.
      * right. exists c, ds. rewrite Hu. auto.
    + rewrite uint_text_value. unfold Z.of_uint.
      now rewrite DecimalPos.Unsigned.of_to.
Qed.

Lemma status_path_full pid :
  0 <= pid -> in_int pid = true ->
  status_path pid = lit "/proc/" ++ fmt_d pid ++ lit "/status".
Proof.
  intros Hpid Hint. destruct (fmt_d_nonneg pid Hpid) as (Hd & Hc & Hv).
  rewrite <- Hv at 1. apply status_path_name; [assumption..|].
  now rewrite Hv.
Qed.

(** X1.  For every process identifier from 0 to [INT_MAX],
    [get_memory_usage] opens "/proc/<pid>/status" with the identifier in
    decimal as the kernel names the directory (digits, no superfluous
    leading zero): the 256-byte path is never truncated, the numeral reads
    back as the identifier, and two identifiers never share a path. *)
Theorem status_path_of_pid (w : world) (pid : Z) :
  0 <= pid -> in_int pid = true ->
  get_memory_usage w pid =
    match fopen w (lit "/proc/" ++ fmt_d pid ++ lit "/status") with
    | None => Ok mem_zero
    | Some status_file => memory_usage_loop status_file mem_zero
    end
  /\ all_digits (fmt_d pid) /\ canonical (fmt_d pid)
  /\ atoi (fmt_d pid) = Ok pid
  /\ forall pid',
       0 <= pid' -> in_int pid' = true ->
       status_path pid' = status_path pid -> pid' = pid.
Proof.
  intros Hpid Hint. destruct (fmt_d_nonneg pid Hpid) as (Hd & Hc & Hv).
  split; [|split; [exact Hd|split; [exact Hc|split]]].
  - unfold get_memory_usage. fold (status_path pid).
    now rewrite status_path_full.
  - rewrite atoi_digits by exact Hd. now rewrite Hv, Hint.
  - intros pid' Hpid' Hint' Hpath.
    rewrite !status_path_full in Hpath by assumption.
    apply app_inv_head, app_inv_tail in Hpath.
    destruct (fmt_d_nonneg pid' Hpid') as (_ & _ & Hv').
    now rewrite <- Hv', <- Hv, Hpath.
Qed.

Lemma status_path_of_pid_witness :
  get_memory_usage node_world 4194304 =
    match fopen node_world (lit "/proc/" ++ fmt_d 4194304 ++ lit "/status") with
    | None => Ok mem_zero
    | Some status_file => memory_usage_loop status_file mem_zero
    end
  /\ all_digits (fmt_d 4194304) /\ canonical (fmt_d 4194304)
  /\ atoi (fmt_d 4194304) = Ok 4194304
  /\ forall pid',
       0 <= pid' -> in_int pid' = true ->
       status_path pid' = status_path 4194304 -> pid' = 4194304.
Proof.
  apply (status_path_of_pid node_world 4194304); [lia | reflexivity].
Defined.

(** X2.  A status line that gives a key a numeral without a superfluous
    leading zero, within [long], stores a value that [%ld] prints back as
    that numeral: the kilobyte block of the display shows the digits of
    the record. *)
Theorem numeral_read_and_printed (f : field) (num : bytes) (mem : memory_info) :
  all_digits num -> canonical num -> in_long (digits_value num) = true ->
  memory_usage_line (field_key f ++ lit " " ++ num ++ ln " kB") mem
  = Ok (set_field f (digits_value num) mem)
  /\ fmt_d (get_field f (set_field f (digits_value num) mem)) = num.
Proof.
  intros Hd Hc Hv. split.
  - apply memory_usage_line_shape; [|exact Hv].
    assert (Hnul : ~ In NUL (field_key f ++ lit " " ++ num ++ ln " kB")).
    { rewrite !in_app_iff. intros [H|[H|[H|H]]].
      - now apply (field_key_no_nul f).
      - simpl in H. intuition discriminate.
      - unfold all_digits in Hd. rewrite forallb_forall in Hd.
        specialize (Hd _ H). discriminate Hd.
      - simpl in H. intuition discriminate. }
    rewrite (cstr_no_nul_id _ Hnul).
    exists [], (lit " "), num, (ln " kB").
    repeat split; try reflexivity; try discriminate.
    exists [], num.
    split; [reflexivity|]. split.
    { destruct Hc as [->|(c & ds & -> & _)]; discriminate. }
    split; [exact Hd|]. left. split; [now left | reflexivity].
  - rewrite get_set_field.
    assert (E : field_eqb f f = true) by now apply field_eqb_eq.
    rewrite E. now apply fmt_d_digits.
Qed.

Lemma numeral_read_and_printed_witness :
  memory_usage_line (field_key VmRSS ++ lit " " ++ lit "20000" ++ ln " kB")
    mem_zero
  = Ok (set_field VmRSS (digits_value (lit "20000")) mem_zero)
  /\ fmt_d (get_field VmRSS (set_field VmRSS (digits_value (lit "20000"))
                               mem_zero)) = lit "20000".
Proof.
  apply (numeral_read_and_printed VmRSS (lit "20000") mem_zero).
  - reflexivity.
  - right. exists "2"%char, (lit "0000"). split; [reflexivity | discriminate].
  - reflexivity.
Defined.

(* ===================================================================== *)
(** ** What the result of the scan says about the listing *)
(* ===================================================================== *)

(** X4.  [get_node_pid] returns -1 from a readable listing only when no
    entry of the listing is a candidate: a process that is found is never
    reported as -1. *)
Theorem not_found_means_no_candidate (w : world) (entries : list bytes) :
  get_node_pid w = Ok (-1) ->
  opendir w (lit "/proc") = Some entries ->
  Forall (fun x => ~ entry_matches w x) entries.
Proof.
  unfold get_node_pid. intros Hrun Ho. rewrite Ho in Hrun.
  destruct (node_pid_loop_cases w entries)
    as [[Hno _]|(before & d & after & -> & Hb & Hm & Hr)]; [exact Hno|].
  rewrite Hr in Hrun. discriminate Hrun.
Qed.

Lemma not_found_means_no_candidate_witness :
  Forall (fun x => ~ entry_matches python_world x) [lit "42"].
Proof.
  exact (not_found_means_no_candidate python_world [lit "42"] eq_refl eq_refl).
Defined.

(** X5.  [get_node_pid] reads the name of the entry it has matched after
    [closedir] has released the directory stream: the call is undefined
    exactly when the listing holds a candidate, and its only defined
    result is -1. *)
Theorem node_pid_undefined_iff (w : world) :
  (get_node_pid w = Undefined
   <-> exists before d_name after,
         opendir w (lit "/proc") = Some (before ++ d_name :: after)
         /\ Forall (fun x => ~ entry_matches w x) before
         /\ entry_matches w d_name)
  /\ forall pid, get_node_pid w = Ok pid -> pid = -1.
Proof.
  unfold get_node_pid. split; [split|].
  - intros Hrun.
    destruct (opendir w (lit "/proc")) as [entries|]; [|discriminate].
    destruct (node_pid_loop_cases w entries)
      as [[_ Hr]|(before & d & after & -> & Hb & Hm & _)]; [congruence|].
    exists before, d, after. auto.
  - intros (before & d & after & -> & _ & Hm).
    now apply node_pid_loop_stop.
  - intros pid.
    destruct (opendir w (lit "/proc")) as [entries|]; [|congruence].
    destruct (node_pid_loop_cases w entries)
      as [[_ ->]|(before & d & after & -> & _ & _ & ->)];
      [congruence | discriminate].
Qed.

Lemma node_pid_frame (w w' : world) :
  opendir w (lit "/proc") = opendir w' (lit "/proc") ->
  (forall entries d_name,
      opendir w (lit "/proc") = Some entries ->
      In d_name entries -> all_digits d_name ->
      fopen w (cmdline_path d_name) = fopen w' (cmdline_path d_name)) ->
  get_node_pid w = get_node_pid w'.
Proof.
  unfold get_node_pid. intros <- Hfiles.
  destruct (opendir w (lit "/proc")) as [entries|]; [|reflexivity].
  specialize (Hfiles entries).
  induction entries as [|x entries IH]; [reflexivity|].
  cbn [node_pid_loop].
  rewrite (node_pid_entry_frame w w' x)
    by (intros Hd; apply Hfiles; [reflexivity | now left | exact Hd]).
  destruct (node_pid_entry w' x) as [[pid|]|]; cbn [bind]; try reflexivity.
  apply IH. intros d _ Hin Hd. apply Hfiles; [reflexivity | now right | exact Hd].
Qed.

(** X6.  [get_node_pid] reads nothing but the listing of "/proc" and the
    command-line records of its wholly numeric entries: two worlds that
    agree on these give the same result, whatever their other files
    hold. *)
Theorem node_pid_reads_only_cmdlines (w w' : world) :
  opendir w (lit "/proc") = opendir w' (lit "/proc") ->
  (forall entries d_name,
      opendir w (lit "/proc") = Some entries ->
      In d_name entries -> all_digits d_name ->
      fopen w (cmdline_path d_name) = fopen w' (cmdline_path d_name)) ->
  get_node_pid w = get_node_pid w'.
Proof. apply node_pid_frame. Qed.

Lemma node_pid_reads_only_cmdlines_witness :
  get_node_pid node_world = get_node_pid node_world_other.
Proof.
  apply (node_pid_reads_only_cmdlines node_world node_world_other).
  - reflexivity.
  - intros entries d_name Ho Hin Hd. injection Ho as <-.
    destruct Hin as [<-|[<-|[<-|[<-|[]]]]]; try reflexivity.
    discriminate Hd.
Defined.

(* ===================================================================== *)
(** ** More on the loop over the status record *)
(* ===================================================================== *)

Lemma contains_app_l pre s t : contains s t -> contains (pre ++ s) t.
Proof.
  intros (a & b & ->). exists (pre ++ a), b. now rewrite <- app_assoc.
Qed.

Lemma shape_contains_key text key v :
  key_value_shape text key v -> contains text key.
Proof.
  intros (ws1 & ws2 & num & rest & -> & _). exists ws1, (ws2 ++ num ++ rest).
  reflexivity.
Qed.

Lemma line_contains_key line f v :
  key_value_shape (cstr line) (field_key f) v -> contains line (field_key f).
Proof.
  intros H. destruct (cstr_prefix line) as [post Hp]. rewrite Hp.
  apply contains_app_r. eapply shape_contains_key; eauto.
Qed.

Lemma memory_usage_loop_keeps_field f file mem mem' :
  ~ contains (f_data file) (field_key f) ->
  memory_usage_loop file mem = Ok mem' ->
  get_field f mem' = get_field f mem.
Proof.
  intros Hno Hrun.
  apply (memory_usage_loop_invariant
           (fun m => get_field f m = get_field f mem)
           (fun s => ~ contains s (field_key f)))
    with (f := file) (mem := mem); auto.
  - intros a b H. split; intros Hc; apply H.
    + now apply contains_app_r.
    + now apply contains_app_l.
  - intros line m m' Hq Hm Hline.
    destruct (memory_usage_line_inv _ _ _ Hline)
      as [->|(g & v & Hshape & _ & ->)]; [exact Hm|].
    rewrite get_set_field.
    destruct (field_eqb f g) eqn:E; [|exact Hm].
    apply field_eqb_eq in E. subst g.
    exfalso. apply Hq. eapply line_contains_key; eauto.
Qed.

(** X7.  A field whose key occurs nowhere in the status record is zero in
    the record that [get_memory_usage] returns, for any record: long
    lines, NUL bytes and read errors included. *)
Theorem absent_key_leaves_zero (w : world) (pid : Z) (f : field)
    (mem : memory_info) :
  get_memory_usage w pid = Ok mem ->
  (forall file, fopen w (status_path pid) = Some file ->
                ~ contains (f_data file) (field_key f)) ->
  get_field f mem = 0.
Proof.
  unfold get_memory_usage. fold (status_path pid). intros Hrun Hno.
  destruct (fopen w (status_path pid)) as [file|].
  - rewrite (memory_usage_loop_keeps_field f file mem_zero mem);
      [destruct f; reflexivity | now apply Hno | exact Hrun].
  - injection Hrun as <-. destruct f; reflexivity.
Qed.

Lemma absent_key_leaves_zero_witness :
  get_field VmStk
    (mkmem 50000 0 0 0) = 0.
Proof.
  apply (absent_key_leaves_zero
           (table_world None
              [(status_path 7,
                mkfile (ln "Name: kworker" ++ ln "VmSize: 50000 kB") true)])
           7 VmStk (mkmem 50000 0 0 0)).
  - reflexivity.
  - intros file H. injection H as <-. apply strstr_none. reflexivity.
Defined.

Lemma has_run_app_l p n a b : has_run p n a -> has_run p n (a ++ b).
Proof.
  intros (pre & run & post & -> & H). exists pre, run, (post ++ b).
  split; [now rewrite <- !app_assoc | exact H].
Qed.

Lemma has_run_app_r p n a b : has_run p n b -> has_run p n (a ++ b).
Proof.
  intros (pre & run & post & -> & H). exists (a ++ pre), run, post.
  split; [now rewrite <- app_assoc | exact H].
Qed.

Lemma digits_value_upper ds :
  all_digits ds -> digits_value ds < 10 ^ Z.of_nat (length ds).
Proof.
  intros H. pose proof (fold_digits_upper ds 0 H ltac:(lia)).
  unfold digits_value. lia.
Qed.

(** A value outside [long] takes nineteen digits or more. *)
Lemma decimal_out_of_long num v :
  decimal num v -> in_long v = false -> has_run isdigit 19 num.
Proof.
  intros (sign & ds & -> & _ & Hds & Hv) Hlong.
  exists sign, ds, []. split; [now rewrite app_nil_r|]. split; [exact Hds|].
  pose proof (digits_value_upper ds Hds) as Hup.
  pose proof (digits_value_nonneg ds Hds) as Hlo.
  destruct (Nat.le_gt_cases 19 (length ds)) as [|Hlen]; [assumption|].
  exfalso.
  assert (10 ^ Z.of_nat (length ds) <= 10 ^ 18)
    by (apply Z.pow_le_mono_r; lia).
  change (10 ^ 18) with 1000000000000000000 in *.
  unfold in_long, LONG_MIN, LONG_MAX in Hlong.
  destruct Hv as [[_ ->]|[_ ->]]; lia.
Qed.

Lemma ordinary_line_defined line mem :
  ~ has_run (fun c => negb (isspace c)) 64 line ->
  ~ has_run isdigit 19 line ->
  memory_usage_line line mem <> Undefined.
Proof.
  intros Htok Hdig Hun.
  destruct (cstr_prefix line) as [post Hp].
  destruct (memory_usage_line_undefined _ _ Hun)
    as [(ws & tok & rest & Htext & _ & Hns & Hlen)
       |(key & v & (ws1 & ws2 & num & rest & Htext & _ & _ & _ & Hnum & _)
         & Hlong)].
  - apply Htok. rewrite Hp, Htext. apply has_run_app_l.
    exists ws, tok, rest. auto.
  - apply Hdig. rewrite Hp, Htext. apply has_run_app_l.
    apply has_run_app_r, has_run_app_r, has_run_app_r, has_run_app_l.
    eapply decimal_out_of_long; eauto.
Qed.

Lemma memory_usage_loop_defined (Q : bytes -> Prop) :
  (forall a b, Q (a ++ b) -> Q a /\ Q b) ->
  (forall line mem, Q line -> memory_usage_line line mem <> Undefined) ->
  forall f mem, Q (f_data f) -> exists mem', memory_usage_loop f mem = Ok mem'.
Proof.
  intros Hsplit Hline f mem.
  funelim (memory_usage_loop f mem); intros HQ.
  - eauto.
  - destruct (fgets_app _ _ _ _ Hget) as [Hdata _].
    rewrite Hdata in HQ. destruct (Hsplit _ _ HQ) as [_ HQ2].
    exact (H Q Hsplit Hline HQ2).
  - destruct (fgets_app _ _ _ _ Hget) as [Hdata _].
    rewrite Hdata in HQ. destruct (Hsplit _ _ HQ) as [HQ1 _].
    exfalso. exact (Hline _ _ HQ1 Heq).
Qed.

(** X8.  [get_memory_usage] is defined, and returns a record, on every
    status record that holds no run of 64 non-blank bytes and no run of 19
    digits: no token can overflow [key[64]] and no number can overflow a
    [long]. *)
Theorem ordinary_record_is_defined (w : world) (pid : Z) :
  (forall file, fopen w (status_path pid) = Some file ->
                ~ has_run (fun c => negb (isspace c)) 64 (f_data file)
                /\ ~ has_run isdigit 19 (f_data file)) ->
  exists mem, get_memory_usage w pid = Ok mem.
Proof.
  unfold get_memory_usage. fold (status_path pid). intros H.
  destruct (fopen w (status_path pid)) as [file|]; [|eauto].
  apply (memory_usage_loop_defined
           (fun s => ~ has_run (fun c => negb (isspace c)) 64 s
                     /\ ~ has_run isdigit 19 s)).
  - intros a b [H1 H2]. split; (split; intros Hr; [apply H1 | apply H2]);
      (now apply has_run_app_l) || (now apply has_run_app_r).
  - intros line mem [H1 H2]. now apply ordinary_line_defined.
  - now apply H.
Qed.

Lemma has_run_bound p n s :
  has_run p n s -> (n <=? longest_run p s)%nat = true.
Proof.
  intros (pre & run & post & -> & Hp & Hn). apply Nat.leb_le.
  assert (H1 : (length run <= prefix_run p (run ++ post))%nat).
  { clear Hn. induction run as [|c run IH]; simpl; [lia|].
    simpl in Hp. apply andb_true_iff in Hp. destruct Hp as [-> Hp].
    specialize (IH Hp). lia. }
  assert (H2 : forall x, (prefix_run p x <= longest_run p x)%nat).
  { intros [|c x]; simpl; lia. }
  assert (H3 : (longest_run p (run ++ post)
                <= longest_run p (pre ++ run ++ post))%nat).
  { induction pre as [|c pre IH]; [cbn [app]; lia|].
    cbn [app longest_run]. lia. }
  specialize (H2 (run ++ post)). lia.
Qed.

Lemma ordinary_record_is_defined_witness :
  exists mem,
    get_memory_usage
      (table_world None [(status_path 42, mkfile status_excerpt false)]) 42
    = Ok mem.
Proof.
  apply (ordinary_record_is_defined
           (table_world None [(status_path 42, mkfile status_excerpt false)])
           42).
  intros file H. injection H as <-.
  split; intros Hr; apply has_run_bound in Hr; vm_compute in Hr;
    discriminate Hr.
Defined.

(* ===================================================================== *)
(** ** The end of the record, long lines, and the order of lines *)
(* ===================================================================== *)

Lemma memory_usage_loop_prefix ls rest e mem :
  Forall text_line ls ->
  memory_usage_loop (mkfile (concat ls ++ rest) e) mem
  = bind (run_lines ls mem) (fun m => memory_usage_loop (mkfile rest e) m).
Proof.
  intros H. revert mem. induction H as [|l ls Hl _ IH]; intros mem.
  - reflexivity.
  - rewrite memory_usage_loop_eq. cbn [concat]. rewrite <- app_assoc.
    rewrite fgets_text_line by exact Hl. cbn [run_lines].
    destruct (memory_usage_line l mem); cbn [bind]; auto.
Qed.

Lemma read_line_tail n tail :
  ~ In NL tail -> (length tail < n)%nat -> read_line n tail = (tail, [], true).
Proof.
  revert n. induction tail as [|c tail IH]; intros n Hnl Hlen.
  - destruct n; [simpl in Hlen; lia | reflexivity].
  - destruct n; [simpl in Hlen; lia|]. simpl in *.
    destruct (Ascii.eqb_spec c NL) as [->|_]; [tauto|].
    rewrite IH by (tauto || lia). reflexivity.
Qed.

Lemma read_line_full pad rest :
  ~ In NL pad -> read_line (length pad) (pad ++ rest) = (pad, rest, false).
Proof.
  induction pad as [|c pad IH]; intros Hnl; [reflexivity|]. simpl in *.
  destruct (Ascii.eqb_spec c NL) as [->|_]; [tauto|].
  rewrite IH by tauto. reflexivity.
Qed.

Lemma skip_space_newline s :
  skip_space (s ++ [NL]) =
  match skip_space s with
  | [] => []
  | c :: r => c :: r ++ [NL]
  end.
Proof.
  induction s as [|c s IH]; [reflexivity|]. cbn [app skip_space].
  destruct (isspace c); [exact IH | reflexivity].
Qed.

Lemma span_token_newline s :
  span_token (s ++ [NL]) = let (t, r) := span_token s in (t, r ++ [NL]).
Proof.
  induction s as [|c s IH]; [reflexivity|]. cbn [app span_token].
  destruct (isspace c); [reflexivity|].
  rewrite IH. now destruct (span_token s).
Qed.

Lemma span_digits_newline s :
  span_digits (s ++ [NL]) = let (t, r) := span_digits s in (t, r ++ [NL]).
Proof.
  induction s as [|c s IH]; [reflexivity|]. cbn [app span_digits].
  destruct (isdigit c); [|reflexivity].
  rewrite IH. now destruct (span_digits s).
Qed.

Lemma scan_decimal_newline s :
  scan_decimal (s ++ [NL]) =
  match scan_decimal s with
  | Some (v, r) => Some (v, r ++ [NL])
  | None => None
  end.
Proof.
  unfold scan_decimal. destruct s as [|c t]; [reflexivity|]. cbn [app].
  destruct (Ascii.eqb c "-"); [|destruct (Ascii.eqb c "+")].
  - rewrite span_digits_newline. destruct (span_digits t) as [[|d ds] r];
      reflexivity.
  - rewrite span_digits_newline. destruct (span_digits t) as [[|d ds] r];
      reflexivity.
  - change (c :: t ++ [NL]) with ((c :: t) ++ [NL]).
    rewrite span_digits_newline.
    destruct (span_digits (c :: t)) as [[|d ds] r]; reflexivity.
Qed.

Lemma cstr_newline b :
  cstr (b ++ [NL]) = cstr b \/ cstr (b ++ [NL]) = cstr b ++ [NL].
Proof.
  induction b as [|c b IH]; [now right|]. cbn [app cstr].
  destruct (Ascii.eqb c NUL); [now left|].
  destruct IH as [->| ->]; [now left | now right].
Qed.

(** The newline that ends a line does not count in what the line says. *)
Lemma memory_usage_line_newline line mem :
  memory_usage_line (line ++ [NL]) mem = memory_usage_line line mem.
Proof.
  rewrite !memory_usage_line_assign. f_equal. unfold line_assign.
  destruct (cstr_newline line) as [->| ->]; [reflexivity|].
  rewrite skip_space_newline.
  destruct (skip_space (cstr line)) as [|c s0]; [reflexivity|].
  change (c :: s0 ++ [NL]) with ((c :: s0) ++ [NL]).
  rewrite span_token_newline.
  destruct (span_token (c :: s0)) as [tok s1].
  destruct (64 <=? length tok)%nat; [reflexivity|].
  rewrite skip_space_newline.
  destruct (skip_space s1) as [|d s2]; [reflexivity|].
  change (d :: s2 ++ [NL]) with ((d :: s2) ++ [NL]).
  rewrite scan_decimal_newline.
  destruct (scan_decimal (d :: s2)) as [[v r]|]; reflexivity.
Qed.

Lemma memory_usage_loop_last_line tail mem :
  ~ In NL tail -> (length tail < 255)%nat ->
  memory_usage_loop (mkfile tail false) mem = memory_usage_line tail mem.
Proof.
  intros Hnl Hlen. destruct tail as [|c tail].
  - rewrite memory_usage_loop_eq, memory_usage_line_assign. reflexivity.
  - rewrite memory_usage_loop_eq. unfold fgets. cbn [f_data f_ioerr].
    change (256 - 1)%nat with 255%nat. rewrite read_line_tail by assumption.
    cbn [andb orb length Nat.eqb].
    destruct (memory_usage_line (c :: tail) mem); cbn [bind]; [|reflexivity].
    rewrite memory_usage_loop_eq. reflexivity.
Qed.

(** X9.  At the end of the file a last line without its newline is served
    like a whole line: a record of whole lines followed by such a line gives
    [get_memory_usage] the result it gives with the newline added. *)
Theorem last_line_needs_no_newline (w w' : world) (pid pid' : Z)
    (ls : list bytes) (tail : bytes) :
  Forall text_line ls -> ~ In NL tail -> (length tail < 255)%nat ->
  fopen w (status_path pid) = Some (mkfile (concat ls ++ tail) false) ->
  fopen w' (status_path pid')
  = Some (mkfile (concat ls ++ tail ++ [NL]) false) ->
  get_memory_usage w pid = get_memory_usage w' pid'.
Proof.
  intros Hls Hnl Hlen Ho Ho'. unfold get_memory_usage.
  fold (status_path pid) (status_path pid'). rewrite Ho, Ho'.
  rewrite !memory_usage_loop_prefix by exact Hls.
  destruct (run_lines ls mem_zero) as [m|]; cbn [bind]; [|reflexivity].
  rewrite memory_usage_loop_last_line by assumption.
  rewrite <- (app_nil_r (tail ++ [NL])).
  change ((tail ++ [NL]) ++ []) with (concat [tail ++ [NL]]).
  rewrite memory_usage_loop_lines.
  - cbn [run_lines]. rewrite memory_usage_line_newline.
    destruct (memory_usage_line tail m); reflexivity.
  - constructor; [|constructor]. exists tail.
    split; [reflexivity|]. split; [exact Hnl|].
    rewrite length_app. simpl. lia.
Qed.

Lemma last_line_needs_no_newline_witness :
  get_memory_usage
    (table_world None
       [(status_path 7,
         mkfile (concat [ln "VmSize: 100 kB"] ++ lit "VmRSS: 5 kB") false)]) 7
  = get_memory_usage
      (table_world None
         [(status_path 8,
           mkfile (concat [ln "VmSize: 100 kB"] ++ lit "VmRSS: 5 kB" ++ [NL])
             false)]) 8.
Proof.
  apply (last_line_needs_no_newline _ _ 7 8 [ln "VmSize: 100 kB"]
           (lit "VmRSS: 5 kB")).
  - repeat constructor. whole_line "VmSize: 100 kB"%string.
  - simpl. intuition discriminate.
  - simpl. lia.
  - reflexivity.
  - reflexivity.
Defined.

(** X10.  When the read fails before the last line is complete, that line
    is lost: [get_memory_usage] returns what the whole lines before it
    give. *)
Theorem read_error_drops_partial_line (w w' : world) (pid pid' : Z)
    (ls : list bytes) (tail : bytes) :
  Forall text_line ls -> ~ In NL tail -> (length tail < 255)%nat ->
  fopen w (status_path pid) = Some (mkfile (concat ls ++ tail) true) ->
  fopen w' (status_path pid') = Some (mkfile (concat ls) false) ->
  get_memory_usage w pid = get_memory_usage w' pid'.
Proof.
  intros Hls Hnl Hlen Ho Ho'. unfold get_memory_usage.
  fold (status_path pid) (status_path pid'). rewrite Ho, Ho'.
  rewrite memory_usage_loop_prefix, memory_usage_loop_lines by exact Hls.
  destruct (run_lines ls mem_zero) as [m|]; cbn [bind]; [|reflexivity].
  rewrite memory_usage_loop_eq. unfold fgets. cbn [f_data f_ioerr].
  change (256 - 1)%nat with 255%nat. rewrite read_line_tail by assumption.
  reflexivity.
Qed.

Lemma read_error_drops_partial_line_witness :
  get_memory_usage
    (table_world None
       [(status_path 7,
         mkfile (concat [ln "VmSize: 100 kB"] ++ lit "VmRSS: 5 kB") true)]) 7
  = get_memory_usage
      (table_world None
         [(status_path 8, mkfile (concat [ln "VmSize: 100 kB"]) false)]) 8.
Proof.
  apply (read_error_drops_partial_line _ _ 7 8 [ln "VmSize: 100 kB"]
           (lit "VmRSS: 5 kB")).
  - repeat constructor. whole_line "VmSize: 100 kB"%string.
  - simpl. intuition discriminate.
  - simpl. lia.
  - reflexivity.
  - reflexivity.
Defined.

(** X11.  A line of the record longer than 255 bytes is read in pieces:
    after 255 bytes without a newline the rest of the same line is served
    as a line of its own, so a key that stands there, in the middle of the
    line, is recognized. *)
Theorem long_line_is_read_in_pieces (w w' : world) (pid pid' : Z)
    (pad rest : bytes) (e : bool) :
  length pad = 255%nat -> ~ In NL pad ->
  (forall mem, memory_usage_line pad mem = Ok mem) ->
  fopen w (status_path pid) = Some (mkfile (pad ++ rest) e) ->
  fopen w' (status_path pid') = Some (mkfile rest e) ->
  get_memory_usage w pid = get_memory_usage w' pid'.
Proof.
  intros Hlen Hnl Hpad Ho Ho'. unfold get_memory_usage.
  fold (status_path pid) (status_path pid'). rewrite Ho, Ho'.
  rewrite memory_usage_loop_eq. unfold fgets. cbn [f_data f_ioerr].
  change (256 - 1)%nat with 255%nat. rewrite <- Hlen.
  rewrite read_line_full by exact Hnl. cbn [andb].
  rewrite Hpad. reflexivity.
Qed.

Lemma long_line_is_read_in_pieces_witness :
  get_memory_usage
    (table_world None
       [(status_path 7,
         mkfile (repeat " "%char 255 ++ ln "VmSize: 7 kB") false)]) 7
  = get_memory_usage
      (table_world None [(status_path 8, mkfile (ln "VmSize: 7 kB") false)]) 8.
Proof.
  apply (long_line_is_read_in_pieces _ _ 7 8 (repeat " "%char 255)
           (ln "VmSize: 7 kB") false).
  - apply repeat_length.
  - intros H. apply repeat_spec in H. discriminate H.
  - intros mem. rewrite memory_usage_line_assign. reflexivity.
  - reflexivity.
  - reflexivity.
Defined.

Lemma set_field_comm f g u v mem :
  f <> g ->
  set_field f u (set_field g v mem) = set_field g v (set_field f u mem).
Proof. destruct f, g; intros H; try congruence; reflexivity. Qed.

Lemma memory_usage_line_comm a b mem :
  (forall m, memory_usage_line a m <> Undefined) ->
  (forall m, memory_usage_line b m <> Undefined) ->
  (forall f u v,
      key_value_shape (cstr a) (field_key f) u ->
      key_value_shape (cstr b) (field_key f) v -> False) ->
  bind (memory_usage_line a mem) (memory_usage_line b)
  = bind (memory_usage_line b mem) (memory_usage_line a).
Proof.
  intros Ha Hb Hkeys.
  assert (Ha' := Ha mem). assert (Hb' := Hb mem).
  rewrite memory_usage_line_assign in Ha', Hb'.
  rewrite !memory_usage_line_assign.
  destruct (line_assign a) as [ra|] eqn:Ea; [|now elim Ha'].
  destruct (line_assign b) as [rb|] eqn:Eb; [|now elim Hb'].
  cbn [bind]. rewrite !memory_usage_line_assign, Ea, Eb. cbn [bind]. f_equal.
  destruct ra as [[f u]|], rb as [[g v]|]; try reflexivity.
  cbn [apply_assign]. symmetry. apply set_field_comm. intros ->.
  destruct (line_assign_inv _ _ _ Ea), (line_assign_inv _ _ _ Eb).
  eapply Hkeys; eauto.
Qed.

(** X12.  Two neighbouring lines of the record that do not name the same
    key can change places: [get_memory_usage] returns the same record. *)
Theorem lines_of_different_keys_commute (w w' : world) (pid pid' : Z)
    (ls1 : list bytes) (a b : bytes) (ls2 : list bytes) (e : bool) :
  Forall text_line (ls1 ++ a :: b :: ls2) ->
  (forall m, memory_usage_line a m <> Undefined) ->
  (forall m, memory_usage_line b m <> Undefined) ->
  (forall f u v,
      key_value_shape (cstr a) (field_key f) u ->
      key_value_shape (cstr b) (field_key f) v -> False) ->
  fopen w (status_path pid) = Some (mkfile (concat (ls1 ++ a :: b :: ls2)) e) ->
  fopen w' (status_path pid')
  = Some (mkfile (concat (ls1 ++ b :: a :: ls2)) e) ->
  get_memory_usage w pid = get_memory_usage w' pid'.
Proof.
  intros Hls Ha Hb Hkeys Ho Ho'. unfold get_memory_usage.
  fold (status_path pid) (status_path pid'). rewrite Ho, Ho'.
  assert (Hls' : Forall text_line (ls1 ++ b :: a :: ls2)).
  { rewrite Forall_app in *. destruct Hls as [H1 H2]. split; [exact H1|].
    inversion H2 as [|? ? Hxa H3]; subst. inversion H3 as [|? ? Hxb H4]; subst.
    repeat constructor; assumption. }
  rewrite !memory_usage_loop_lines by assumption.
  rewrite !run_lines_app.
  destruct (run_lines ls1 mem_zero) as [m|]; cbn [bind]; [|reflexivity].
  cbn [run_lines].
  pose proof (memory_usage_line_comm a b m Ha Hb Hkeys) as Hc.
  destruct (memory_usage_line a m) as [ma|] eqn:Ea; [|now elim (Ha m)].
  destruct (memory_usage_line b m) as [mb|] eqn:Eb; [|now elim (Hb m)].
  cbn [bind] in *.
  destruct (memory_usage_line b ma) as [mab|] eqn:Eab; [|now elim (Hb ma)].
  destruct (memory_usage_line a mb) as [mba|] eqn:Eba; [|now elim (Ha mb)].
  cbn [bind]. now injection Hc as ->.
Qed.

Lemma lines_of_different_keys_commute_witness :
  get_memory_usage
    (table_world None
       [(status_path 7,
         mkfile (concat ([] ++ ln "VmSize: 100 kB" :: ln "VmRSS: 5 kB" :: []))
           false)]) 7
  = get_memory_usage
      (table_world None
         [(status_path 8,
           mkfile (concat ([] ++ ln "VmRSS: 5 kB" :: ln "VmSize: 100 kB" :: []))
             false)]) 8.
Proof.
  apply (lines_of_different_keys_commute _ _ 7 8 [] (ln "VmSize: 100 kB")
           (ln "VmRSS: 5 kB") [] false).
  - repeat constructor.
    + whole_line "VmSize: 100 kB"%string.
    + whole_line "VmRSS: 5 kB"%string.
  - eapply line_defined_by_assign; reflexivity.
  - eapply line_defined_by_assign; reflexivity.
  - intros f u v Ha Hb.
    destruct f;
      first [ revert Ha; eapply no_shape_by_assign;
              [reflexivity | intros x H; discriminate H]
            | revert Hb; eapply no_shape_by_assign;
              [reflexivity | intros x H; discriminate H] ].
  - reflexivity.
  - reflexivity.
Defined.

(* ===================================================================== *)
(** ** The whole program *)
(* ===================================================================== *)

(** X14.  After [get_node_pid] has given an identifier other than -1,
    when the status record of that identifier holds no "VmSize:" (or
    cannot be opened), [main] prints the PID and "Failed to read memory
    information" and exits with status 1, whatever the other fields are;
    this on every record without a run of 64 non-blank bytes or of 19
    digits. *)
Theorem main_fails_without_vm_size (w : world) (pid : Z) :
  pid <> -1 ->
  (forall file, fopen w (status_path pid) = Some file ->
                ~ contains (f_data file) (lit "VmSize:")
                /\ ~ has_run (fun c => negb (isspace c)) 64 (f_data file)
                /\ ~ has_run isdigit 19 (f_data file)) ->
  main_from w pid
  = Ok (lit "Found Node.js process: PID " ++ fmt_d pid ++ [NL]
        ++ ln "Failed to read memory information", 1)
  /\ (get_node_pid w = Ok pid ->
      main w = Ok (lit "Found Node.js process: PID " ++ fmt_d pid ++ [NL]
                   ++ ln "Failed to read memory information", 1)).
Proof.
  intros Hne Hfile.
  assert (Hfrom : main_from w pid
                  = Ok (lit "Found Node.js process: PID " ++ fmt_d pid ++ [NL]
                        ++ ln "Failed to read memory information", 1)).
  { unfold main_from.
    destruct (Z.eqb_spec pid (-1)) as [|_]; [contradiction|].
    assert (Hdef : exists mem, get_memory_usage w pid = Ok mem).
    { unfold get_memory_usage. fold (status_path pid).
      destruct (fopen w (status_path pid)) as [file|] eqn:Ho; [|eauto].
      destruct (Hfile file eq_refl) as (_ & H1 & H2).
      apply (memory_usage_loop_defined
               (fun s => ~ has_run (fun c => negb (isspace c)) 64 s
                         /\ ~ has_run isdigit 19 s)); [| |auto].
      - intros a b [Ha Hb]. split; (split; intros Hr; [apply Ha | apply Hb]);
          (now apply has_run_app_l) || (now apply has_run_app_r).
      - intros line mem [Ha Hb]. now apply ordinary_line_defined. }
    destruct Hdef as [mem Hmem]. rewrite Hmem. cbn [bind].
    assert (Hz : vm_size mem = 0).
    { revert Hmem. unfold get_memory_usage. fold (status_path pid).
      destruct (fopen w (status_path pid)) as [file|] eqn:Ho.
      - intros Hrun.
        apply (memory_usage_loop_keeps_field VmSize file mem_zero mem);
          [apply (Hfile file eq_refl) | exact Hrun].
      - intros H. now injection H as <-. }
    rewrite Hz. cbn [Z.eqb]. now rewrite <- !app_assoc. }
  split; [exact Hfrom|].
  intros Hpid. unfold main. rewrite Hpid. exact Hfrom.
Qed.

Lemma main_fails_without_vm_size_witness :
  main_from
    (table_world (Some [lit "9"])
       [(cmdline_path (lit "9"), mkfile (lit "node") false);
        (status_path 9, mkfile (ln "Name: node" ++ ln "VmRSS: 5 kB") false)])
    9
  = Ok (lit "Found Node.js process: PID " ++ fmt_d 9 ++ [NL]
        ++ ln "Failed to read memory information", 1).
Proof.
  refine (proj1 (main_fails_without_vm_size _ 9 _ _)).
  - discriminate.
  - intros file H. injection H as <-. split; [|split].
    + apply strstr_none. reflexivity.
    + intros Hr. apply has_run_bound in Hr. vm_compute in Hr. discriminate Hr.
    + intros Hr. apply has_run_bound in Hr. vm_compute in Hr. discriminate Hr.
Defined.

(** X15.  After the call of [get_node_pid], [main] opens no file but the
    status record of the identifier it was given, and none at all when
    the identifier is -1: two worlds that agree on that record make the
    rest of [main] print the same text and exit with the same status,
    whatever their listings and other files hold.  With the listing and
    the command-line records of its numeric entries agreeing too, [main]
    as a whole does the same in both. *)
Theorem main_reads_status_only_when_found (w w' : world) (pid : Z) :
  (pid <> -1 -> fopen w (status_path pid) = fopen w' (status_path pid)) ->
  main_from w pid = main_from w' pid
  /\ (opendir w (lit "/proc") = opendir w' (lit "/proc") ->
      (forall entries d_name,
          opendir w (lit "/proc") = Some entries ->
          In d_name entries -> all_digits d_name ->
          fopen w (cmdline_path d_name) = fopen w' (cmdline_path d_name)) ->
      get_node_pid w = Ok pid ->
      main w = main w').
Proof.
  intros Hstatus.
  assert (Hfrom : main_from w pid = main_from w' pid).
  { unfold main_from.
    destruct (Z.eqb_spec pid (-1)) as [|Hne]; [reflexivity|].
    unfold get_memory_usage. fold (status_path pid).
    now rewrite (Hstatus Hne). }
  split; [exact Hfrom|].
  intros Hdir Hcmd Hpid. unfold main.
  rewrite <- (node_pid_frame w w' Hdir Hcmd), Hpid. exact Hfrom.
Qed.

Lemma main_reads_status_only_when_found_witness :
  main_from node_world 42
  = main_from
      (table_world (Some [lit "1"])
         [(cmdline_path (lit "1"), mkfile (lit "node") false);
          (status_path 1, mkfile (ln "VmSize: 1 kB") false);
          (status_path 42,
           mkfile (ln "Name:   node" ++ ln "VmSize:    50000 kB"
                   ++ ln "VmRSS:     20000 kB" ++ ln "VmData:    10000 kB"
                   ++ ln "VmStk:       132 kB") false)])
      42.
Proof.
  refine (proj1 (main_reads_status_only_when_found node_world _ 42 _)).
  intros _. reflexivity.
Defined.

End Memory.
